(** * VendorCatalog: the import pipeline

    A shallow embedding of [controllers/import_controller.py] (source
    readers, field mapper, upsert coordinator), of the bulk path of
    [models/vendor_product.py] and of the settings of [config/settings.py],
    with the properties the design document states about them and further
    properties read off the code.

    Conventions.
    - A Python [dict] with string keys is a [gmap string _]; dictionary
      equality in Python ignores insertion order, as [gmap] equality does.
    - A Python [str] is a [string], read as a sequence of code points
      below 256.
    - A Python [float] is an IEEE-754 binary64 datum, [spec_float].
    - A call that may raise returns a [result]; state that survives an
      exception is threaded explicitly. *)

From Stdlib Require Import ZArith String Ascii List DecimalString.
From Stdlib Require Import Floats.SpecFloat.
From stdpp Require Import gmap strings list fin_maps.

(** ** Python values and truthiness *)

(** The scalar values a flat record can hold. *)
Inductive value : Type :=
| VNone
| VBool (b : bool)
| VInt (n : Z)
| VFloat (f : spec_float)
| VStr (s : string).

#[global] Instance spec_float_eq_dec : EqDecision spec_float.
Proof. solve_decision. Defined.

#[global] Instance value_eq_dec : EqDecision value.
Proof. solve_decision. Defined.

#[global] Instance VStr_inj : Inj (=) (=) VStr.
Proof. by intros s1 s2 [= ->]. Qed.

(** [bool(v)]: what [if v:] tests. *)
Definition truthy (v : value) : bool :=
  match v with
  | VNone => false
  | VBool b => b
  | VInt n => negb (n =? 0)%Z
  | VFloat (S754_zero _) => false
  | VFloat _ => true
  | VStr EmptyString => false
  | VStr (String _ _) => true
  end.

(** A raw or canonical record: [Dict[str, scalar]]. *)
Abbreviation record := (gmap string value).

(** [str(n)] for an [int]. *)
Definition str_int (n : Z) : string := NilZero.string_of_int (Z.to_int n).

(** ** Exceptions *)

(** The exception classes the readers distinguish.  Only subclasses of
    [Exception] are modelled. *)
Inductive exn_class : Type :=
| FileNotFoundError      (* subclass of OSError *)
| OSError                (* any other OSError *)
| EOFError
| FTPError               (* ftplib.Error and its subclasses *)
| RequestException       (* requests.RequestException, an IOError *)
| JSONDecodeError        (* json.JSONDecodeError, a ValueError *)
| ParseError             (* xml.etree.ElementTree.ParseError *)
| OtherException.        (* any other subclass of Exception *)

(** An exception instance: its class and [str(e)]. *)
Record exn : Type := Exn { exn_cls : exn_class; exn_msg : string }.

Inductive result (A : Type) : Type :=
| Ok (a : A)
| Raise (e : exn).
Arguments Ok {A} a.
Arguments Raise {A} e.

(** ** Field mapper ([_process_mapped_data], lines 353-381) *)

Abbreviation field_mapping := (gmap string (list string)).

(** The mapping used when the caller supplies none (lines 354-365). *)
Definition default_mapping : field_mapping :=
  list_to_map
    [ ("sku", ["sku"; "product_id"; "item_number"; "part_number"; "id"]);
      ("name", ["name"; "product_name"; "title"; "description"]);
      ("description", ["description"; "long_description"; "details"]);
      ("price", ["price"; "cost"; "wholesale_price"; "msrp"]);
      ("category", ["category"; "product_type"; "type"]);
      ("brand", ["brand"; "manufacturer"]);
      ("upc", ["upc"; "gtin"; "ean"; "barcode"]);
      ("weight", ["weight"]);
      ("dimensions", ["dimensions"; "size"]);
      ("status", ["status"; "availability"; "is_active"]) ].

(** [if not mapping: mapping = {...}]: [None] and the empty dict are both
    falsy. *)
Definition effective_mapping (mapping : option field_mapping) : field_mapping :=
  match mapping with
  | None => default_mapping
  | Some m => if decide (m = ∅) then default_mapping else m
  end.

(** The inner loop (lines 378-381):
    [for source_field in source_fields:
       if source_field in item and item[source_field]: ...; break]. *)
Fixpoint first_source_value (item : record) (source_fields : list string)
  : option value :=
  match source_fields with
  | [] => None
  | source_field :: rest =>
      match item !! source_field with
      | Some v => if truthy v then Some v else first_source_value item rest
      | None => first_source_value item rest
      end
  end.

(** The outer loop (lines 376-381): [product_data] starts empty and receives
    one entry per target field that found a value. *)
Definition apply_mapping (mapping : field_mapping) (item : record) : record :=
  map_fold
    (λ target_field source_fields product_data,
       match first_source_value item source_fields with
       | Some v => <[target_field := v]> product_data
       | None => product_data
       end)
    ∅ mapping.

(** The aliases configured for a destination field. *)
Definition source_fields_of (mapping : field_mapping) (target_field : string)
  : list string :=
  default [] (mapping !! target_field).

(** The alias is present in the record with a truthy value. *)
Definition has_value (item : record) (source_field : string) : bool :=
  match item !! source_field with
  | Some v => truthy v
  | None => false
  end.

(** The field is an alias of some destination field. *)
Definition is_alias (mapping : field_mapping) (source_field : string) : Prop :=
  ∃ target_field source_fields,
    mapping !! target_field = Some source_fields ∧ source_field ∈ source_fields.



(** ['k' not in product_data or not product_data['k']] (lines 384, 388). *)
Definition field_missing (product_data : record) (k : string) : bool :=
  match product_data !! k with
  | None => true
  | Some v => negb (truthy v)
  end.

(** ** Catalog store interface *)

(** A vendor row ([models/vendor.py]). *)
Record vendor : Type := Vendor {
  vendor_id_of : Z;
  vendor_name : string;
  vendor_description : option string;
  vendor_contact_info : option string;
  vendor_status : string
}.

(** What [get_by_vendor_sku] hands back: the coordinator reads only [.id]. *)
Record product : Type := Product {
  product_id : nat;
  product_fields : record
}.

(** The four store operations [_process_mapped_data] calls.  Their bodies
    are not part of the import controller; the coordinator is written
    against this interface.  A write that raises leaves the store as it
    was (each write is one statement, atomic in the database). *)
Class CatalogStore (S : Type) : Type := {
  VendorController_get_by_id : S → Z → result (option vendor);
  ProductController_get_by_vendor_sku : S → Z → value → result (option product);
  ProductController_update : S → nat → record → result S;
  ProductController_create : S → record → result S
}.

(** ** Upsert coordinator ([_process_mapped_data], lines 367-410) *)

Inductive item_outcome : Type :=
| Imported
| Failed (err : string).

#[global] Instance item_outcome_eq_dec : EqDecision item_outcome.
Proof. solve_decision. Defined.

Section Coordinator.
Context {S : Type} `{CatalogStore S}.
(** [f"{item}"]: Python's rendering of a dict. *)
Context (repr_item : record → string).

Definition missing_field_error (k : string) (item : record) : string :=
  "Missing required field '" +:+ k +:+ "' for item: " +:+ repr_item item.

Definition item_exception_error (item : record) (e : exn) : string :=
  "Error processing item " +:+ repr_item item +:+ ": " +:+ exn_msg e.

Definition vendor_not_found_error (vendor_id : Z) : string :=
  "Vendor with ID " +:+ str_int vendor_id +:+ " not found".

(** The record handed to the store: the mapped fields plus [vendor_id]
    (line 393). *)
Definition canonical_record (vendor_id : Z) (mapping : field_mapping)
    (item : record) : record :=
  <["vendor_id" := VInt vendor_id]> (apply_mapping mapping item).

(** One iteration of the loop body (lines 374-408): the [try] block and its
    [except Exception] handler. *)
Definition process_item (vendor_id : Z) (mapping : field_mapping) (st : S)
    (item : record) : S * item_outcome :=
  let product_data := apply_mapping mapping item in
  if field_missing product_data "sku" then
    (st, Failed (missing_field_error "sku" item))
  else if field_missing product_data "name" then
    (st, Failed (missing_field_error "name" item))
  else
    let product_data := <["vendor_id" := VInt vendor_id]> product_data in
    let sku := default VNone (product_data !! "sku") in
    match ProductController_get_by_vendor_sku st vendor_id sku with
    | Raise e => (st, Failed (item_exception_error item e))
    | Ok (Some existing_product) =>
        match ProductController_update st (product_id existing_product) product_data with
        | Raise e => (st, Failed (item_exception_error item e))
        | Ok st' => (st', Imported)
        end
    | Ok None =>
        match ProductController_create st product_data with
        | Raise e => (st, Failed (item_exception_error item e))
        | Ok st' => (st', Imported)
        end
    end.

(** The [for item in data] loop, with its two accumulators. *)
Fixpoint process_items (vendor_id : Z) (mapping : field_mapping)
    (data : list record) (st : S) (imported_count : nat) (errors : list string)
  : S * (nat * list string) :=
  match data with
  | [] => (st, (imported_count, errors))
  | item :: rest =>
      match process_item vendor_id mapping st item with
      | (st', Imported) =>
          process_items vendor_id mapping rest st' (imported_count + 1) errors
      | (st', Failed err) =>
          process_items vendor_id mapping rest st' imported_count (errors ++ [err])
      end
  end.

(** [_process_mapped_data(data, vendor_id, mapping)].  The vendor lookup
    stands outside the per-item [try], so an exception there leaves the
    function. *)
Definition _process_mapped_data (data : list record) (vendor_id : Z)
    (mapping : option field_mapping) (st : S)
  : result (S * (nat * list string)) :=
  let mapping := effective_mapping mapping in
  match VendorController_get_by_id st vendor_id with
  | Raise e => Raise e
  | Ok None => Ok (st, (0, [vendor_not_found_error vendor_id]))
  | Ok (Some _) => Ok (process_items vendor_id mapping data st 0 [])
  end.

(** The outcome of each record in turn, the store threaded through: what
    the result of a batch is measured against. *)
Fixpoint item_outcomes (vendor_id : Z) (mapping : field_mapping)
    (data : list record) (st : S) : list item_outcome :=
  match data with
  | [] => []
  | item :: rest =>
      let (st', outcome) := process_item vendor_id mapping st item in
      outcome :: item_outcomes vendor_id mapping rest st'
  end.

(** The store after each record of the batch has been processed. *)
Fixpoint store_after (vendor_id : Z) (mapping : field_mapping)
    (data : list record) (st : S) : S :=
  match data with
  | [] => st
  | item :: rest =>
      store_after vendor_id mapping rest (process_item vendor_id mapping st item).1
  end.


End Coordinator.

(** The records that were written, and the errors of those that were not,
    in the order of the batch. *)
Definition imported_of (outcomes : list item_outcome) : nat :=
  length (filter (λ o, o = Imported) outcomes).

Definition errors_of (outcomes : list item_outcome) : list string :=
  omap (λ o, match o with Failed err => Some err | Imported => None end) outcomes.

(** ** The catalog store *)

(** Modelled from the spec: the bodies of [VendorController.get_by_id],
    [ProductController.get_by_vendor_sku], [ProductController.update] and
    [ProductController.create] are not among the sources.  The design
    document describes the store as entity tables with save (insert,
    returns a generated identity), update by identity, find by identity and
    find by natural key (vendor, SKU).  Rows are keyed by their identity. *)
Record catalog : Type := Catalog {
  cat_vendors : gmap Z vendor;
  cat_products : gmap nat record
}.

(** A row is the offer of [sku] by [vendor_id]. *)
Definition is_offer (vendor_id : Z) (sku : value) (row : record) : Prop :=
  row !! "vendor_id" = Some (VInt vendor_id) ∧ row !! "sku" = Some sku.

#[global] Instance is_offer_dec vendor_id sku row : Decision (is_offer vendor_id sku row).
Proof. unfold is_offer. apply _. Defined.

(** Modelled from the spec: find by identity. *)
Definition catalog_get_vendor (c : catalog) (vendor_id : Z) : option vendor :=
  cat_vendors c !! vendor_id.

(** Modelled from the spec: find by natural key (vendor, SKU). *)
Definition catalog_find_by_vendor_sku (c : catalog) (vendor_id : Z) (sku : value)
  : option product :=
  (λ kv : nat * record, Product kv.1 kv.2)
    <$> head (map_to_list (filter (λ kv : nat * record, is_offer vendor_id sku kv.2)
                                  (cat_products c))).

(** Modelled from the spec: update by identity; the fields given replace
    the row's, the row keeps its identity. *)
Definition catalog_update (c : catalog) (id : nat) (product_data : record) : catalog :=
  Catalog (cat_vendors c) (alter (λ row, product_data ∪ row) id (cat_products c)).

(** Modelled from the spec: save, under a generated identity. *)
Definition catalog_create (c : catalog) (product_data : record) : catalog :=
  Catalog (cat_vendors c)
          (<[fresh (dom (cat_products c)) := product_data]> (cat_products c)).

#[global] Instance catalog_store : CatalogStore catalog := {|
  VendorController_get_by_id c vendor_id := Ok (catalog_get_vendor c vendor_id);
  ProductController_get_by_vendor_sku c vendor_id sku :=
    Ok (catalog_find_by_vendor_sku c vendor_id sku);
  ProductController_update c id product_data := Ok (catalog_update c id product_data);
  ProductController_create c product_data := Ok (catalog_create c product_data)
|}.

(** The invariant of the table, [UNIQUE(vendor_id, vendor_sku)]: a natural
    key names at most one row. *)
Definition natural_key_unique (c : catalog) : Prop :=
  ∀ id1 id2 row1 row2 vendor_id sku,
    cat_products c !! id1 = Some row1 → cat_products c !! id2 = Some row2 →
    is_offer vendor_id sku row1 → is_offer vendor_id sku row2 → id1 = id2.

(** The rows of a vendor, and their number. *)
Definition vendor_rows (c : catalog) (vendor_id : Z) : gmap nat record :=
  filter (λ kv : nat * record, kv.2 !! "vendor_id" = Some (VInt vendor_id))
         (cat_products c).

Definition vendor_row_count (c : catalog) (vendor_id : Z) : nat :=
  size (vendor_rows c vendor_id).

(** ** Strings *)

(** [s.split(sep)] for a one-character separator: never empty. *)
Fixpoint split (sep : ascii) (s : string) : list string :=
  match s with
  | EmptyString => [EmptyString]
  | String c rest =>
      if Ascii.eqb c sep then EmptyString :: split sep rest
      else match split sep rest with
           | [] => [String c EmptyString]
           | first :: others => String c first :: others
           end
  end.

(** [sep.join(parts)]. *)
Fixpoint join (sep : ascii) (parts : list string) : string :=
  match parts with
  | [] => EmptyString
  | [p] => p
  | p :: rest => p +:+ String sep (join sep rest)
  end.

(** [c.isspace()] for a code point below 256. *)
Definition is_space (c : ascii) : bool :=
  let n := nat_of_ascii c in
  ((9 <=? n) && (n <=? 13)) || ((28 <=? n) && (n <=? 32))
  || (n =? 133) || (n =? 160).

Fixpoint lstrip (s : string) : string :=
  match s with
  | EmptyString => EmptyString
  | String c rest => if is_space c then lstrip rest else s
  end.

Fixpoint rstrip (s : string) : string :=
  match s with
  | EmptyString => EmptyString
  | String c rest =>
      match rstrip rest with
      | EmptyString => if is_space c then EmptyString else String c EmptyString
      | kept => String c kept
      end
  end.

(** [s.strip()]. *)
Definition strip (s : string) : string := rstrip (lstrip s).

Definition contains_char (c : ascii) (s : string) : bool :=
  existsb (Ascii.eqb c) (list_ascii_of_string s).

(** [s.startswith(p)], [s.endswith(p)], [p in s]. *)
Definition startswith (s p : string) : bool := String.prefix p s.
Definition endswith (s p : string) : bool := String.prefix (String.rev p) (String.rev s).
Definition contains (s p : string) : bool :=
  match String.index 0 p s with Some _ => true | None => false end.

(** [s[1:]], [s[:-1]]. *)
Definition drop_first (s : string) : string :=
  match s with EmptyString => EmptyString | String _ rest => rest end.
Definition drop_last (s : string) : string := String.rev (drop_first (String.rev s)).

(** [c.lower()] for a code point below 256. *)
Definition lower_char (c : ascii) : ascii :=
  let n := nat_of_ascii c in
  if ((65 <=? n) && (n <=? 90)) || ((192 <=? n) && (n <=? 222) && negb (n =? 215))
  then ascii_of_nat (n + 32) else c.

Fixpoint lower (s : string) : string :=
  match s with
  | EmptyString => EmptyString
  | String c rest => String (lower_char c) (lower rest)
  end.

(** [os.path.splitext(p)[1]] (POSIX): the extension of the last path
    component, leading dots of the component not counting. *)
Fixpoint drop_dots (s : string) : string :=
  match s with
  | String "."%char rest => drop_dots rest
  | _ => s
  end.

Definition splitext_ext (p : string) : string :=
  let basename := default EmptyString (last (split "/" p)) in
  match split "." (drop_dots basename) with
  | [] | [_] => EmptyString
  | parts => String "."%char (default EmptyString (last parts))
  end.

(** ** EDI reader: the segment loop of [import_from_edi] (lines 193-228) *)

Record edi_state : Type := EdiState {
  products_data : list record;
  current_product : record
}.

(** [if current_product: products_data.append(current_product)]. *)
Definition flush_product (st : edi_state) : list record :=
  if decide (current_product st = ∅) then products_data st
  else products_data st ++ [current_product st].

Section Edi.
(** [float(s)]: [None] stands for [ValueError]. *)
Context (py_float : string → option spec_float).

(** One iteration of [for segment in segments]. *)
Definition edi_segment (st : edi_state) (segment : string) : edi_state :=
  if decide (strip segment = EmptyString) then st
  else
    let elements := split "*" segment in
    let segment_id := default EmptyString (elements !! 0%nat) in
    if decide (segment_id = "LIN") then
      EdiState (flush_product st)
               (match elements !! 3%nat with
                | Some sku => {[ "sku" := VStr sku ]}
                | None => ∅
                end)
    else if decide (segment_id = "PID") then
      match elements !! 5%nat with
      | Some name => EdiState (products_data st)
                              (<["name" := VStr name]> (current_product st))
      | None => st
      end
    else if decide (segment_id = "CTP") then
      match elements !! 3%nat with
      | Some text =>
          match py_float text with
          | Some price => EdiState (products_data st)
                                   (<["price" := VFloat price]> (current_product st))
          | None => st
          end
      | None => st
      end
    else st.

(** The records handed to [_process_mapped_data] (line 231). *)
Definition edi_products (edi_data : string) : list record :=
  flush_product (fold_left edi_segment (split "~" edi_data) (EdiState [] ∅)).

(** The reader in the words of the design document, on a segment already
    split into its elements: a [LIN] segment flushes the open product and
    starts a new one, seeded with the SKU at position 3; [PID] sets the
    name from position 5; [CTP] sets the price from position 3 when it
    parses as a number; any other segment changes nothing. *)
Definition edi_spec_segment (st : edi_state) (elements : list string) : edi_state :=
  match elements with
  | [] => st
  | segment_id :: _ =>
      if decide (segment_id = "LIN") then
        EdiState (flush_product st)
                 (from_option (λ sku, {[ "sku" := VStr sku ]}) ∅ (elements !! 3%nat))
      else if decide (segment_id = "PID") then
        from_option
          (λ name, EdiState (products_data st)
                            (<["name" := VStr name]> (current_product st)))
          st (elements !! 5%nat)
      else if decide (segment_id = "CTP") then
        from_option
          (λ price, EdiState (products_data st)
                             (<["price" := VFloat price]> (current_product st)))
          st (elements !! 3%nat ≫= py_float)
      else st
  end.

(** The output for a sequence of segments: the products flushed on the
    way, then the product still open at the end. *)
Definition edi_spec_products (segments : list (list string)) : list record :=
  flush_product (fold_left edi_spec_segment segments (EdiState [] ∅)).

End Edi.

(** ** Effects of the readers *)

(** What a reader can change: the catalog store and the files of the
    working directory. *)
Record world (S : Type) : Type := World {
  w_store : S;
  w_files : gset string
}.
Arguments World {S} _ _.
Arguments w_store {S} _.
Arguments w_files {S} _.

(** A computation that may raise; what it did before raising stays done. *)
Definition M (S A : Type) : Type := world S → world S * result A.

Definition ret {S A : Type} (a : A) : M S A := λ w, (w, Ok a).

Definition bind {S A B : Type} (m : M S A) (k : A → M S B) : M S B :=
  λ w, match m w with
       | (w', Ok a) => k a w'
       | (w', Raise e) => (w', Raise e)
       end.

(** The outcome of an action of the outside world. *)
Definition lift {S A : Type} (r : result A) : M S A := λ w, (w, r).

Notation "'do' x <- m ;; k" := (bind m (λ x, k))
  (at level 10, x name, m at level 99, k at level 200).

(** The [except] clauses that occur in the readers. *)
Inductive except_clause : Type :=
| ExceptFileNotFoundError
| ExceptJSONDecodeError
| ExceptParseError
| ExceptRequestException
| ExceptFtpAllErrors       (* ftplib.all_errors = (Error, OSError, EOFError) *)
| ExceptException.

(** [isinstance(e, clause)]. *)
Definition catches (clause : except_clause) (c : exn_class) : bool :=
  match clause, c with
  | ExceptException, _ => true
  | ExceptFileNotFoundError, FileNotFoundError => true
  | ExceptJSONDecodeError, JSONDecodeError => true
  | ExceptParseError, ParseError => true
  | ExceptRequestException, RequestException => true
  | ExceptFtpAllErrors, (FTPError | OSError | FileNotFoundError | RequestException | EOFError) => true
  | _, _ => false
  end.

(** The first clause that matches handles the exception; with none, it
    propagates. *)
Fixpoint find_handler {B : Type} (handlers : list (except_clause * B)) (c : exn_class)
  : option B :=
  match handlers with
  | [] => None
  | (clause, h) :: rest => if catches clause c then Some h else find_handler rest c
  end.

(** [try: body except c1 as e: h1 ... except cn as e: hn]. *)
Definition try_except {S A : Type} (body : M S A)
    (handlers : list (except_clause * (exn → M S A))) : M S A :=
  λ w, match body w with
       | (w', Ok a) => (w', Ok a)
       | (w', Raise e) =>
           match find_handler handlers (exn_cls e) with
           | Some h => h e w'
           | None => (w', Raise e)
           end
       end.

(** The failure policy of a reader: it always returns, and when its [try]
    block raises, what it returns is zero records and one error string. *)
Definition errors_as_data {S : Type} (reader body : M S (nat * list string)) : Prop :=
  ∀ w,
    (∃ w' r, reader w = (w', Ok r))
    ∧ (∀ w' e, body w = (w', Raise e) →
               ∃ msg, reader w = (w', Ok (0%nat, [msg]))).

(** [os.remove(path)]. *)
Definition os_remove {S : Type} (path : string) : M S unit :=
  λ w, if decide (path ∈ w_files w)
       then (World (w_store w) (w_files w ∖ {[path]}), Ok tt)
       else (w, Raise (Exn FileNotFoundError
                           ("[Errno 2] No such file or directory: '" +:+ path +:+ "'"))).

(** The file [open(path, 'wb')] has created. *)
Definition create_file {S : Type} (path : string) : M S unit :=
  λ w, (World (w_store w) (w_files w ∪ {[path]}), Ok tt).

(** ** Reader configurations *)

(** [api_config]: an absent key is [None]. *)
Record api_config : Type := ApiConfig {
  api_url : option string;
  api_auth_type : option string;
  api_auth_params : option (gmap string string);
  api_headers : option (gmap string string);
  api_params : option (gmap string string);
  api_paginated : option bool;
  api_items_path : option string;
  api_next_page_path : option string
}.

(** [sftp_config]: an absent key is [None]. *)
Record sftp_config : Type := SftpConfig {
  sftp_host : option string;
  sftp_port : option Z;
  sftp_username : option string;
  sftp_password : option string;
  sftp_directory : option string;
  sftp_file_pattern : option string
}.

(** [_matches_pattern(filename, pattern)] (lines 467-481). *)
Definition _matches_pattern (filename pattern : string) : bool :=
  if decide (pattern = "*") then true
  else if startswith pattern "*" && endswith pattern "*" then
    contains filename (drop_last (drop_first pattern))
  else if startswith pattern "*" then endswith filename (drop_first pattern)
  else if endswith pattern "*" then startswith filename (drop_last pattern)
  else bool_decide (filename = pattern).

(** ** Source readers *)

Section Readers.
Context {S : Type} `{CatalogStore S}.
Context (repr_item : record → string) (py_float : string → option spec_float).

(** Actions of the outside world, each with the outcome it had: the rows
    [csv.DictReader] yields (lines 242-244), the records of
    [pd.read_excel] (259-262), the items selected from [json.load]
    (277-288), the items built from the XML tree (305-324). *)
Context (read_csv read_excel read_json read_xml : string → result (list record)).
(** The items of the API response, pages concatenated (lines 87-107, up to
    the call of [_process_api_data]). *)
Context (api_fetch_items :
  option string → option (string * string) → gmap string string →
  gmap string string → api_config → result (list record)).
(** The FTP session up to the listing (lines 140-147); [open(temp, 'wb')]
    (line 159); [ftp.retrbinary] (line 160). *)
Context (ftp_nlst : string → Z → string → string → string → result (list string)).
Context (open_wb : string → result unit) (ftp_retrbinary : string → result unit).

Abbreviation import_result := (nat * list string)%type.

(** [return cls._process_mapped_data(data, vendor_id, mapping)]. *)
Definition run_process_mapped_data (data : list record) (vendor_id : Z)
    (mapping : option field_mapping) : M S import_result :=
  λ w, match _process_mapped_data repr_item data vendor_id mapping (w_store w) with
       | Raise e => (w, Raise e)
       | Ok (st', r) => (World st' (w_files w), Ok r)
       end.

Definition file_reader_body (read : string → result (list record))
    (file_path : string) (vendor_id : Z) (mapping : option field_mapping)
  : M S import_result :=
  do data <- lift (read file_path) ;;
  run_process_mapped_data data vendor_id mapping.

Definition file_not_found (file_path : string) : exn → M S import_result :=
  λ _, ret (0, ["File not found: " +:+ file_path]).

(** [_import_from_csv] (lines 238-252). *)
Definition _import_from_csv (file_path : string) (vendor_id : Z)
    (mapping : option field_mapping) : M S import_result :=
  try_except (file_reader_body read_csv file_path vendor_id mapping)
    [ (ExceptFileNotFoundError, file_not_found file_path);
      (ExceptException, λ e, ret (0, ["Error importing from CSV: " +:+ exn_msg e])) ].

(** [_import_from_excel] (lines 255-270). *)
Definition _import_from_excel (file_path : string) (vendor_id : Z)
    (mapping : option field_mapping) : M S import_result :=
  try_except (file_reader_body read_excel file_path vendor_id mapping)
    [ (ExceptFileNotFoundError, file_not_found file_path);
      (ExceptException, λ e, ret (0, ["Error importing from Excel: " +:+ exn_msg e])) ].

(** [_import_from_json] (lines 273-298). *)
Definition _import_from_json (file_path : string) (vendor_id : Z)
    (mapping : option field_mapping) : M S import_result :=
  try_except (file_reader_body read_json file_path vendor_id mapping)
    [ (ExceptFileNotFoundError, file_not_found file_path);
      (ExceptJSONDecodeError, λ _, ret (0, ["Invalid JSON format in file: " +:+ file_path]));
      (ExceptException, λ e, ret (0, ["Error importing from JSON: " +:+ exn_msg e])) ].

(** [_import_from_xml] (lines 301-334). *)
Definition _import_from_xml (file_path : string) (vendor_id : Z)
    (mapping : option field_mapping) : M S import_result :=
  try_except (file_reader_body read_xml file_path vendor_id mapping)
    [ (ExceptFileNotFoundError, file_not_found file_path);
      (ExceptParseError, λ _, ret (0, ["Invalid XML format in file: " +:+ file_path]));
      (ExceptException, λ e, ret (0, ["Error importing from XML: " +:+ exn_msg e])) ].

(** [import_from_file] (lines 33-58). *)
Definition import_from_file (file_path : string) (vendor_id : Z)
    (mapping : option field_mapping) : M S import_result :=
  let file_ext := lower (splitext_ext file_path) in
  if decide (file_ext = ".csv") then _import_from_csv file_path vendor_id mapping
  else if decide (file_ext ∈ [".xlsx"; ".xls"]) then
    _import_from_excel file_path vendor_id mapping
  else if decide (file_ext = ".json") then _import_from_json file_path vendor_id mapping
  else if decide (file_ext = ".xml") then _import_from_xml file_path vendor_id mapping
  else ret (0, ["Unsupported file format: " +:+ file_ext]).

(** The request is prepared from the configuration (lines 73-84, which
    stand before the [try] and cannot raise on a configuration of this
    type), then the [try] block runs (lines 87-108). *)
Definition import_from_api_body (api_config : api_config) (vendor_id : Z)
    (mapping : option field_mapping) : M S import_result :=
  let url := api_url api_config in
  let auth_type := default "none" (api_auth_type api_config) in
  let auth_params := default ∅ (api_auth_params api_config) in
  let headers := default ∅ (api_headers api_config) in
  let params := default ∅ (api_params api_config) in
  let auth :=
    if decide (auth_type = "basic")
    then Some (default "" (auth_params !! "username"),
               default "" (auth_params !! "password"))
    else None in
  let headers :=
    if decide (auth_type = "basic") then headers
    else if decide (auth_type = "bearer")
    then <["Authorization" := "Bearer " +:+ default "" (auth_params !! "token")]> headers
    else headers in
  do items <- lift (api_fetch_items url auth headers params api_config) ;;
  run_process_mapped_data items vendor_id mapping.

(** [import_from_api] (lines 61-115). *)
Definition import_from_api (api_config : api_config) (vendor_id : Z)
    (mapping : option field_mapping) : M S import_result :=
  try_except (import_from_api_body api_config vendor_id mapping)
    [ (ExceptRequestException, λ e, ret (0, ["API request failed: " +:+ exn_msg e]));
      (ExceptJSONDecodeError, λ _, ret (0, ["API response is not valid JSON"]));
      (ExceptException,
       λ e, ret (0, ["Unexpected error during API import: " +:+ exn_msg e])) ].

(** One iteration of [for file in files] (lines 157-168). *)
Definition sftp_import_one (file : string) (vendor_id : Z)
    (mapping : option field_mapping) : M S import_result :=
  let temp_file := "temp_" +:+ file in
  do _ <- lift (open_wb temp_file) ;;
  do _ <- create_file temp_file ;;
  do _ <- lift (ftp_retrbinary ("RETR " +:+ file)) ;;
  do r <- import_from_file temp_file vendor_id mapping ;;
  do _ <- os_remove temp_file ;;
  ret r.

(** The loop (lines 153-170). *)
Fixpoint sftp_import_files (files : list string) (vendor_id : Z)
    (mapping : option field_mapping) (total_imported : nat)
    (all_errors : list string) : M S import_result :=
  match files with
  | [] => ret (total_imported, all_errors)
  | file :: rest =>
      do r <- sftp_import_one file vendor_id mapping ;;
      sftp_import_files rest vendor_id mapping
                        (total_imported + r.1) (all_errors ++ r.2)
  end.

(** The [try] block of [import_from_sftp] (lines 138-170). *)
Definition import_from_sftp_body (sftp_config : sftp_config) (vendor_id : Z)
    (mapping : option field_mapping) : M S import_result :=
  let host := default "" (sftp_host sftp_config) in
  let port := default 22%Z (sftp_port sftp_config) in
  let username := default "" (sftp_username sftp_config) in
  let password := default "" (sftp_password sftp_config) in
  let directory := default "/" (sftp_directory sftp_config) in
  let file_pattern := default "*" (sftp_file_pattern sftp_config) in
  do names <- lift (ftp_nlst host port username password directory) ;;
  let files := filter (λ f, _matches_pattern f file_pattern = true) names in
  if decide (files = []) then ret (0, ["No matching files found on SFTP server"])
  else sftp_import_files files vendor_id mapping 0 [].

(** [import_from_sftp] (lines 118-175). *)
Definition import_from_sftp (sftp_config : sftp_config) (vendor_id : Z)
    (mapping : option field_mapping) : M S import_result :=
  try_except (import_from_sftp_body sftp_config vendor_id mapping)
    [ (ExceptFtpAllErrors, λ e, ret (0, ["SFTP error: " +:+ exn_msg e]));
      (ExceptException,
       λ e, ret (0, ["Unexpected error during SFTP import: " +:+ exn_msg e])) ].

(** The [try] block of [import_from_edi] (lines 192-231). *)
Definition import_from_edi_body (edi_data : string) (vendor_id : Z)
    (mapping : option field_mapping) : M S import_result :=
  run_process_mapped_data (edi_products py_float edi_data) vendor_id mapping.

(** [import_from_edi] (lines 178-234). *)
Definition import_from_edi (edi_data : string) (vendor_id : Z)
    (mapping : option field_mapping) : M S import_result :=
  try_except (import_from_edi_body edi_data vendor_id mapping)
    [ (ExceptException, λ e, ret (0, ["Error parsing EDI data: " +:+ exn_msg e])) ].

End Readers.

(** ** Bulk path: [bulk_insert] of [models/vendor_product.py] (lines 130-200) *)

(** In the source the [def]s after [__init__] stand at module level, each
    under [@classmethod] where it has one: [VendorProduct.bulk_insert]
    does not exist and the module-level name is a classmethod object,
    which cannot be called.  What is modelled is the function it wraps,
    applied to the model class: the body of lines 138-200. *)

(** One tuple of [values]: the seventeen columns of the INSERT.  The
    [props] column holds [json.dumps(props)]; the dictionary that is
    serialised stands for its text. *)
Record vendor_product_row : Type := VendorProductRow {
  vp_vendor_id : Z;
  vp_master_product_id : value;
  vp_vendor_sku : value;
  vp_vendor_price : value;
  vp_list_price : value;
  vp_map_price : value;
  vp_mrp_price : value;
  vp_quantity : value;
  vp_quantity_nj : value;
  vp_quantity_fl : value;
  vp_eta : value;
  vp_eta_nj : value;
  vp_eta_fl : value;
  vp_shipping_weight : value;
  vp_shipping_dimensions : value;
  vp_props : option record;
  vp_status : string
}.

(** The keys [bulk_insert] reads into named columns (lines 174-177). *)
Definition bulk_columns : list string :=
  ["sku"; "price"; "list"; "map"; "mrp"; "qty"; "qtynj"; "qtyfl";
   "eta"; "etanj"; "etafl"; "wt"; "bh"; "bl"; "bw"].

(** [product.get(k, d)]. *)
Definition dict_get (product : record) (k : string) (d : value) : value :=
  default d (product !! k).

(** [{k: v for k, v in product.items() if k not in [...]}]. *)
Definition extra_props (product : record) : record :=
  filter (λ kv : string * value, kv.1 ∉ bulk_columns) product.

(** The column affinities of the table (lines 41-63). *)
Inductive affinity : Type :=
| AffText
| AffInteger
| AffReal.

(** A Python [int] fits the INTEGER of the database, signed 64-bit. *)
Definition int64 (n : Z) : bool := (- 2 ^ 63 <=? n)%Z && (n <? 2 ^ 63)%Z.

(** [sqlite3] can bind the value: for an [int] outside the range it raises
    [OverflowError]. *)
Definition bindable (v : value) : bool :=
  match v with
  | VInt n => int64 n
  | _ => true
  end.

Definition overflow_error : exn :=
  Exn OtherException "Python int too large to convert to SQLite INTEGER".

(** The value as [sqlite3] binds it: [True] and [False] are the integers 1
    and 0, and a NaN is bound as NULL. *)
Definition bound (v : value) : value :=
  match v with
  | VBool b => VInt (if b then 1 else 0)
  | VFloat S754_nan => VNone
  | _ => v
  end.

Section Bulk.
(** [format(v)] inside an f-string. *)
Context (str_value : value → string).

(** The body of [for product in batch] (lines 147-183). *)
Definition bulk_values (vendor_id : Z) (product : record) : vendor_product_row :=
  let dimensions :=
    if decide (is_Some (product !! "bh") ∧ is_Some (product !! "bl")
               ∧ is_Some (product !! "bw"))
    then VStr (str_value (dict_get product "bl" (VStr "")) +:+ "x"
               +:+ str_value (dict_get product "bw" (VStr "")) +:+ "x"
               +:+ str_value (dict_get product "bh" (VStr "")))
    else VNone in
  let props := extra_props product in
  {| vp_vendor_id := vendor_id;
     vp_master_product_id := VNone;
     vp_vendor_sku := dict_get product "sku" (VStr "");
     vp_vendor_price := dict_get product "price" VNone;
     vp_list_price := dict_get product "list" VNone;
     vp_map_price := dict_get product "map" VNone;
     vp_mrp_price := dict_get product "mrp" VNone;
     vp_quantity := dict_get product "qty" (VInt 0);
     vp_quantity_nj := dict_get product "qtynj" (VInt 0);
     vp_quantity_fl := dict_get product "qtyfl" (VInt 0);
     vp_eta := dict_get product "eta" VNone;
     vp_eta_nj := dict_get product "etanj" VNone;
     vp_eta_fl := dict_get product "etafl" VNone;
     vp_shipping_weight := dict_get product "wt" VNone;
     vp_shipping_dimensions := dimensions;
     vp_props := if decide (props = ∅) then None else Some props;
     vp_status := "active" |}.

(** Two rows collide on [UNIQUE(vendor_id, vendor_sku)]; a NULL SKU never
    collides. *)
Definition same_natural_key (r1 r2 : vendor_product_row) : Prop :=
  vp_vendor_id r1 = vp_vendor_id r2 ∧ vp_vendor_sku r1 = vp_vendor_sku r2
  ∧ vp_vendor_sku r1 ≠ VNone.

(** The conversions of the database engine, taken as they are: the text
    form of a number that goes into a TEXT column, and what a column of
    INTEGER or REAL affinity stores for a value that is not of its own
    storage class (the number a text reads as, the text itself when it
    reads as none, the integer a float stands for, ...). *)
Context (sqlite_text : value → string) (sqlite_numeric : affinity → value → value).

(** What a column of the given affinity stores for a value: NULL stays
    NULL, a text in a TEXT column, an integer in an INTEGER column and a
    float in a REAL column are stored as they are, a number that goes
    into a TEXT column is stored as its text. *)
Definition stored (aff : affinity) (v : value) : value :=
  match aff, bound v with
  | _, VNone => VNone
  | AffText, VStr s => VStr s
  | AffText, bv => VStr (sqlite_text bv)
  | AffInteger, VInt n => VInt n
  | AffReal, VFloat f => VFloat f
  | _, bv => sqlite_numeric aff bv
  end.

(** Every parameter of the tuple can be bound. *)
Definition row_bindable (row : vendor_product_row) : bool :=
  int64 (vp_vendor_id row)
  && forallb bindable
       [ vp_master_product_id row; vp_vendor_sku row; vp_vendor_price row;
         vp_list_price row; vp_map_price row; vp_mrp_price row;
         vp_quantity row; vp_quantity_nj row; vp_quantity_fl row;
         vp_eta row; vp_eta_nj row; vp_eta_fl row;
         vp_shipping_weight row; vp_shipping_dimensions row ].

(** The row the table holds for a tuple, column by column (lines 42-59). *)
Definition stored_row (row : vendor_product_row) : vendor_product_row :=
  {| vp_vendor_id := vp_vendor_id row;
     vp_master_product_id := stored AffInteger (vp_master_product_id row);
     vp_vendor_sku := stored AffText (vp_vendor_sku row);
     vp_vendor_price := stored AffReal (vp_vendor_price row);
     vp_list_price := stored AffReal (vp_list_price row);
     vp_map_price := stored AffReal (vp_map_price row);
     vp_mrp_price := stored AffReal (vp_mrp_price row);
     vp_quantity := stored AffInteger (vp_quantity row);
     vp_quantity_nj := stored AffInteger (vp_quantity_nj row);
     vp_quantity_fl := stored AffInteger (vp_quantity_fl row);
     vp_eta := stored AffText (vp_eta row);
     vp_eta_nj := stored AffText (vp_eta_nj row);
     vp_eta_fl := stored AffText (vp_eta_fl row);
     vp_shipping_weight := stored AffReal (vp_shipping_weight row);
     vp_shipping_dimensions := stored AffText (vp_shipping_dimensions row);
     vp_props := vp_props row;
     vp_status := vp_status row |}.

(** [INSERT OR REPLACE] of one tuple: the rows that collide with the row
    as stored go, the row comes under a generated identity. *)
Definition insert_or_replace (table : gmap nat vendor_product_row)
    (row : vendor_product_row) : gmap nat vendor_product_row :=
  <[fresh (dom table) := stored_row row]>
    (filter (λ kv : nat * vendor_product_row,
               ¬ same_natural_key kv.2 (stored_row row)) table).

(** [cursor.executemany(..., values)] (lines 186-193) inside the open
    transaction: the tuples are written in order until one cannot be
    bound. *)
Fixpoint executemany (table : gmap nat vendor_product_row)
    (values : list vendor_product_row) : result (gmap nat vendor_product_row) :=
  match values with
  | [] => Ok table
  | row :: rest =>
      if row_bindable row then executemany (insert_or_replace table row) rest
      else Raise overflow_error
  end.

(** The loop over the batches (lines 146-195): the table inside the
    transaction and [total_inserted]. *)
Fixpoint insert_batches (vendor_id : Z) (batch_list : list (list record))
    (table : gmap nat vendor_product_row) (total_inserted : nat)
  : result (gmap nat vendor_product_row * nat) :=
  match batch_list with
  | [] => Ok (table, total_inserted)
  | batch :: rest =>
      match executemany table (map (bulk_values vendor_id) batch) with
      | Raise e => Raise e
      | Ok table' =>
          insert_batches vendor_id rest table' (total_inserted + length batch)%nat
      end
  end.

(** [products_data[i:i+batch_size] for i in range(0, len, batch_size)]. *)
Fixpoint batches (fuel : nat) (batch_size : nat) (products_data : list record)
  : list (list record) :=
  match fuel, products_data with
  | 0%nat, _ | _, [] => []
  | Datatypes.S fuel', _ =>
      take batch_size products_data
      :: batches fuel' batch_size (drop batch_size products_data)
  end.

(** [bulk_insert(vendor_id, products_data, batch_size)]: the table as
    committed afterwards, and [total_inserted] or the exception.  The
    connection is taken to be the call's own, as [get_connection] of the
    base model makes it, and [conn.commit()] (line 197) stands after the
    loop: when the call raises, what it wrote is not committed.  The
    database is taken to be reachable and the table to exist. *)
Definition bulk_insert (vendor_id : Z) (products_data : list record)
    (batch_size : Z) (table : gmap nat vendor_product_row)
  : gmap nat vendor_product_row * result nat :=
  if decide (products_data = []) then (table, Ok 0%nat)
  else if decide (batch_size = 0%Z) then
    (table, Raise (Exn OtherException "range() arg 3 must not be zero"))
  else if decide (batch_size < 0)%Z then (table, Ok 0%nat)
  else
    match insert_batches vendor_id
            (batches (length products_data) (Z.to_nat batch_size) products_data)
            table 0%nat with
    | Raise e => (table, Raise e)
    | Ok (table', total_inserted) => (table', Ok total_inserted)
    end.

End Bulk.

(** ** JSON documents *)

(** What [json.load] and [response.json()] return. *)
#[warnings="-register-all"] Inductive json : Type :=
| JNull
| JBool (b : bool)
| JInt (n : Z)
| JFloat (f : spec_float)
| JStr (s : string)
| JArr (items : list json)
| JObj (members : gmap string json).

(** [type(x).__name__]. *)
Definition json_type_name (x : json) : string :=
  match x with
  | JNull => "NoneType"
  | JBool _ => "bool"
  | JInt _ => "int"
  | JFloat _ => "float"
  | JStr _ => "str"
  | JArr _ => "list"
  | JObj _ => "dict"
  end.

Definition type_error (msg : string) : exn := Exn OtherException msg.

(** [x == key] for a string [key]: only a string equals a string. *)
Definition json_is_str (key : string) (x : json) : bool :=
  match x with
  | JStr s => bool_decide (s = key)
  | _ => false
  end.

(** [key in current] for a string [key]: a key of a dict, an element of a
    list, a substring of a string; a [TypeError] on anything else. *)
Definition json_contains (key : string) (current : json) : result bool :=
  match current with
  | JObj members => Ok (bool_decide (is_Some (members !! key)))
  | JArr items => Ok (existsb (json_is_str key) items)
  | JStr s => Ok (contains s key)
  | _ => Raise (type_error ("argument of type '" +:+ json_type_name current
                            +:+ "' is not iterable"))
  end.

(** [current[key]] for a string [key]. *)
Definition json_getitem (current : json) (key : string) : result json :=
  match current with
  | JObj members =>
      match members !! key with
      | Some v => Ok v
      | None => Raise (Exn OtherException ("'" +:+ key +:+ "'"))
      end
  | JArr _ => Raise (type_error "list indices must be integers or slices, not str")
  | JStr _ => Raise (type_error "string indices must be integers, not 'str'")
  | _ => Raise (type_error ("'" +:+ json_type_name current
                            +:+ "' object is not subscriptable"))
  end.

(** [x if isinstance(x, list) else [x]]. *)
Definition json_as_list (x : json) : list json :=
  match x with
  | JArr items => items
  | _ => [x]
  end.

(** ** API reader: the response helpers (lines 417-464) *)

(** The loop of [_extract_items] (lines 423-430). *)
Fixpoint extract_items_walk (keys : list string) (current : json)
  : result (list json) :=
  match keys with
  | [] => Ok (json_as_list current)
  | key :: rest =>
      match json_contains key current with
      | Raise e => Raise e
      | Ok false => Ok []
      | Ok true =>
          match json_getitem current key with
          | Raise e => Raise e
          | Ok next => extract_items_walk rest next
          end
      end
  end.

(** [_extract_items(data, items_path)] (lines 417-430). *)
Definition _extract_items (data : json) (items_path : string) : result (list json) :=
  if decide (items_path = "") then Ok (json_as_list data)
  else extract_items_walk (split "." items_path) data.

(** [for part in parts: if part in current: current = current[part]
     else: return fallback], then [finish current]. *)
Fixpoint walk_parts {A : Type} (parts : list string) (current : json)
    (fallback : A) (finish : json → result A) : result A :=
  match parts with
  | [] => finish current
  | part :: rest =>
      match json_contains part current with
      | Raise e => Raise e
      | Ok false => Ok fallback
      | Ok true =>
          match json_getitem current part with
          | Raise e => Raise e
          | Ok next => walk_parts rest next fallback finish
          end
      end
  end.

(** [parts[-1] in current and current[parts[-1]] is not None]. *)
Definition last_part_set (last_part : string) (current : json) : result bool :=
  match json_contains last_part current with
  | Raise e => Raise e
  | Ok false => Ok false
  | Ok true =>
      match json_getitem current last_part with
      | Raise e => Raise e
      | Ok JNull => Ok false
      | Ok _ => Ok true
      end
  end.

(** [_has_next_page(data, next_page_path)] (lines 432-447). *)
Definition _has_next_page (data : json) (next_page_path : string) : result bool :=
  if decide (next_page_path = "") then Ok false
  else
    let parts := split "." next_page_path in
    walk_parts (removelast parts) data false
               (last_part_set (List.last parts "")).

(** [_get_next_page_url(data, next_page_path)] (lines 449-464). *)
Definition _get_next_page_url (data : json) (next_page_path : string) : result json :=
  if decide (next_page_path = "") then Ok (JStr "")
  else walk_parts (split "." next_page_path) data (JStr "") Ok.

(** ** API reader: collecting the items (lines 91-107) *)

Section ApiPages.
(** [requests.get(next_url, ...)], [raise_for_status()] and [.json()] for a
    page after the first (lines 100-102). *)
Context (http_get_json : json → result json).
Context (items_path next_page_path : string).

(** The [while] loop (lines 98-103).  The second list holds the URLs
    requested so far.  [None]: the fuel ran out before the loop ended. *)
Fixpoint fetch_pages (fuel : nat) (data : json) (all_data : list json)
    (requested : list json) : option (result (list json * list json)) :=
  match fuel with
  | 0%nat => None
  | Datatypes.S fuel' =>
      match _has_next_page data next_page_path with
      | Raise e => Some (Raise e)
      | Ok false => Some (Ok (all_data, requested))
      | Ok true =>
          match _get_next_page_url data next_page_path with
          | Raise e => Some (Raise e)
          | Ok next_url =>
              match http_get_json next_url with
              | Raise e => Some (Raise e)
              | Ok data' =>
                  match _extract_items data' items_path with
                  | Raise e => Some (Raise e)
                  | Ok items =>
                      fetch_pages fuel' data' (all_data ++ items)
                                  (requested ++ [next_url])
                  end
              end
          end
      end
  end.

(** The items handed to [_process_api_data], from the first response on
    (lines 94-107). *)
Definition api_collect_items (fuel : nat) (paginated : bool) (data : json)
  : option (result (list json * list json)) :=
  if paginated then
    match _extract_items data items_path with
    | Raise e => Some (Raise e)
    | Ok items => fetch_pages fuel data items []
    end
  else
    match _extract_items data items_path with
    | Raise e => Some (Raise e)
    | Ok items => Some (Ok (items, []))
    end.

End ApiPages.

(** The value found by following [keys] through nested objects. *)
Fixpoint json_path (keys : list string) (data : json) : option json :=
  match keys with
  | [] => Some data
  | key :: rest =>
      match data with
      | JObj members =>
          match members !! key with
          | Some v => json_path rest v
          | None => None
          end
      | _ => None
      end
  end.

(** Null, a boolean or a number: what [in] cannot be asked of. *)
Definition json_scalar (x : json) : Prop :=
  match x with
  | JNull | JBool _ | JInt _ | JFloat _ => True
  | _ => False
  end.

(** A run of pages: each names the next, the last names none. *)
Fixpoint page_chain (http_get_json : json → result json) (next_page_path : string)
    (data : json) (later : list json) : Prop :=
  match later with
  | [] => _has_next_page data next_page_path = Ok false
  | next :: later' =>
      _has_next_page data next_page_path = Ok true
      ∧ (∃ url, _get_next_page_url data next_page_path = Ok url
                ∧ http_get_json url = Ok next)
      ∧ page_chain http_get_json next_page_path next later'
  end.

(** A run of pages, each naming the next, whatever the last one says. *)
Fixpoint page_links (http_get_json : json → result json) (next_page_path : string)
    (data : json) (later : list json) : Prop :=
  match later with
  | [] => True
  | next :: later' =>
      _has_next_page data next_page_path = Ok true
      ∧ (∃ url, _get_next_page_url data next_page_path = Ok url
                ∧ http_get_json url = Ok next)
      ∧ page_links http_get_json next_page_path next later'
  end.

(** ** SFTP reader, several directories (lines 483-507) *)

Section SftpMulti.
Context {S : Type} `{CatalogStore S}.
Context (repr_item : record → string).
Context (read_csv read_excel read_json read_xml : string → result (list record)).
Context (ftp_nlst : string → Z → string → string → string → result (list string)).
Context (open_wb : string → result unit) (ftp_retrbinary : string → result unit).

(** One iteration of [for config in sftp_configs] (lines 499-505): the
    [try] block updates the two accumulators, the handler appends its
    error. *)
Definition sftp_multi_step (config : sftp_config) (vendor_id : Z)
    (mapping : option field_mapping) (total_imported : nat)
    (all_errors : list string) : M S (nat * list string) :=
  try_except
    (do r <- import_from_sftp repr_item read_csv read_excel read_json read_xml
               ftp_nlst open_wb ftp_retrbinary config vendor_id mapping ;;
     ret ((total_imported + r.1)%nat, all_errors ++ r.2))
    [ (ExceptException,
       λ e, ret (total_imported,
                 all_errors ++ ["Error processing directory "
                                +:+ default "unknown" (sftp_directory config)
                                +:+ ": " +:+ exn_msg e])) ].

Fixpoint sftp_multi_loop (sftp_configs : list sftp_config) (vendor_id : Z)
    (mapping : option field_mapping) (total_imported : nat)
    (all_errors : list string) : M S (nat * list string) :=
  match sftp_configs with
  | [] => ret (total_imported, all_errors)
  | config :: rest =>
      do acc <- sftp_multi_step config vendor_id mapping total_imported all_errors ;;
      sftp_multi_loop rest vendor_id mapping acc.1 acc.2
  end.

(** [import_from_sftp_multi(sftp_configs, vendor_id, mapping)]. *)
Definition import_from_sftp_multi (sftp_configs : list sftp_config) (vendor_id : Z)
    (mapping : option field_mapping) : M S (nat * list string) :=
  sftp_multi_loop sftp_configs vendor_id mapping 0%nat [].

End SftpMulti.

(** ** Settings ([config/settings.py]) *)

(** [DEFAULT_CONFIG] (lines 21-40), as the module defines it. *)
Definition DEFAULT_CONFIG : gmap string json :=
  {[ "theme" := JStr "default";
     "debug_mode" := JBool false;
     "auto_backup" := JBool true;
     "backup_interval_days" := JInt 7;
     "max_backups" := JInt 5;
     "ui" := JObj {[ "font_size" := JInt 10;
                     "window_width" := JInt 1024;
                     "window_height" := JInt 768 ]};
     "database" := JObj {[ "type" := JStr "sqlite";
                           "host" := JStr "localhost";
                           "port" := JInt 5432;
                           "name" := JStr "vendor_catalog";
                           "user" := JStr "postgres";
                           "password" := JStr "" ]} ]}.

(** [load_config()] (lines 58-75).  [config_file] is what the file system
    holds: [None] when [CONFIG_PATH] does not exist, otherwise the outcome
    of opening the file and [json.load]; the file is taken to hold an
    object, as [save_config] writes one.  [config.update(user_config)]
    replaces top-level entries. *)
Definition load_config (config_file : option (result (gmap string json)))
  : gmap string json :=
  match config_file with
  | Some (Ok user_config) => user_config ∪ DEFAULT_CONFIG
  | Some (Raise _) => DEFAULT_CONFIG
  | None => DEFAULT_CONFIG
  end.

(** [get_setting(key, default)] (lines 87-97) on the current [config]:
    [value[k]] raises [KeyError] on a dict without [k] and [TypeError] on
    anything that is not a dict, and both are caught. *)
Definition get_setting (config : gmap string json) (key : string) (default : json)
  : json :=
  match json_path (split "." key) (JObj config) with
  | Some value => value
  | None => default
  end.

(** [current[k] = value]. *)
Definition json_setitem (current : json) (k : string) (value : json) : result json :=
  match current with
  | JObj members => Ok (JObj (<[k := value]> members))
  | JStr _ => Raise (type_error "'str' object does not support item assignment")
  | JArr _ => Raise (type_error "list indices must be integers or slices, not str")
  | _ => Raise (type_error ("'" +:+ json_type_name current
                            +:+ "' object does not support item assignment"))
  end.

(** The navigation and the assignment of [set_setting] (lines 101-111), on
    the tree below [current]: the tree after the in-place updates, and the
    exception that stopped them, if any. *)
Fixpoint set_walk (keys : list string) (last_key : string) (current : json)
    (value : json) : json * option exn :=
  match keys with
  | [] =>
      match json_setitem current last_key value with
      | Ok current' => (current', None)
      | Raise e => (current, Some e)
      end
  | k :: rest =>
      match json_contains k current with
      | Raise e => (current, Some e)
      | Ok present =>
          match (if present then Ok current else json_setitem current k (JObj ∅)) with
          | Raise e => (current, Some e)
          | Ok current1 =>
              match json_getitem current1 k with
              | Raise e => (current1, Some e)
              | Ok child =>
                  let (child', failure) := set_walk rest last_key child value in
                  match json_setitem current1 k child' with
                  | Ok current2 => (current2, failure)
                  | Raise e => (current1, Some e)
                  end
              end
          end
      end
  end.

(** [set_setting(key, value)] (lines 99-115): the configuration afterwards
    and the exception raised, if any.  Writing the file ([save_config])
    reports failure by its return value, which is not looked at.  The
    configuration is taken as a tree, no dictionary being reachable under
    two keys, so that the updates in place are updates of the value. *)
Definition set_setting (config : gmap string json) (key : string) (value : json)
  : gmap string json * option exn :=
  let keys := split "." key in
  match set_walk (removelast keys) (List.last keys "") (JObj config) value with
  | (JObj config', failure) => (config', failure)
  | (_, failure) => (config, failure)
  end.

(** ** The vendor-product table *)

(** [UNIQUE(vendor_id, vendor_sku)] of [create_table] (line 62). *)
Definition table_key_unique (table : gmap nat vendor_product_row) : Prop :=
  ∀ id1 id2 row1 row2,
    table !! id1 = Some row1 → table !! id2 = Some row2 →
    same_natural_key row1 row2 → id1 = id2.

(** ** EDI reader: what the loop recognises *)

(** The segment starts with white space, as one that follows a line break
    does. *)
Definition leading_space (segment : string) : bool :=
  match segment with
  | EmptyString => false
  | String c _ => is_space c
  end.

(** [segment.split('*')[0] == 'LIN']. *)
Definition is_lin (segment : string) : bool :=
  bool_decide (default EmptyString (split "*" segment !! 0%nat) = "LIN").

(** A record the EDI loop can have built: at least one field, each of
    them [sku] or [name] with a string or [price] with a number that
    [float] returned. *)
Definition edi_fields (py_float : string → option spec_float) (r : record) : Prop :=
  ∀ k v, r !! k = Some v →
    (k = "sku" ∧ ∃ s, v = VStr s)
    ∨ (k = "name" ∧ ∃ s, v = VStr s)
    ∨ (k = "price" ∧ ∃ text f, py_float text = Some f ∧ v = VFloat f).

Definition edi_record (py_float : string → option spec_float) (r : record) : Prop :=
  r ≠ ∅ ∧ edi_fields py_float r.

(** ** Upsert coordinator: a store that writes no product *)



(** ** The vendor-product table: the SKU column *)

(** What the TEXT column [vendor_sku] holds: a string or NULL. *)
Definition text_or_null (v : value) : Prop :=
  match v with
  | VStr _ | VNone => True
  | _ => False
  end.

Definition table_skus_text (table : gmap nat vendor_product_row) : Prop :=
  map_Forall (λ _ row, text_or_null (vp_vendor_sku row)) table.

(** * Worked inputs *)

(** A rendering of records for the worked inputs: the keys, in braces. *)
Definition example_repr (item : record) : string :=
  "{" +:+ join ","%char (fst <$> map_to_list item) +:+ "}".

(** A number parser for the worked inputs: it knows "9.5". *)
Definition example_float (s : string) : option spec_float :=
  if decide (s = "9.5") then Some (S754_finite false 5348024557502464 (-49)) else None.

Definition example_vendor : vendor := Vendor 1 "Acme" None None "active".

Definition example_row : record :=
  {[ "vendor_id" := VInt 1; "sku" := VStr "A1"; "name" := VStr "Widget" ]}.

(** One vendor, one row of that vendor. *)
Definition example_catalog : catalog :=
  Catalog {[ 1%Z := example_vendor ]} {[ 0%nat := example_row ]}.


(** A record for the SKU the vendor already offers, with a column the
    mapping does not know. *)
Definition example_item : record :=
  {[ "sku" := VStr "A1"; "name" := VStr "Widget v2"; "qtynj" := VStr "7" ]}.


Definition no_file (file_path : string) : result (list record) :=
  Raise (Exn FileNotFoundError "[Errno 2] No such file or directory").

Definition example_sftp : sftp_config :=
  SftpConfig (Some "ftp.example.com") None (Some "user") (Some "secret")
             (Some "/out") (Some "*.csv").

(** The server lists two files, one of which matches the pattern. *)
Definition example_nlst (host : string) (port : Z)
    (username password directory : string) : result (list string) :=
  Ok ["a.csv"; "a.csv.bak"].

Definition open_ok (path : string) : result unit := Ok tt.

(** The transfer breaks off. *)
Definition retr_fails (command : string) : result unit :=
  Raise (Exn FTPError "426 Connection closed; transfer aborted").

Definition example_edi : list (list string) :=
  [ ["LIN"; "1"; "VP"; "SKU1"]; ["PID"; "F"; ""; ""; ""; "Widget"];
    ["CTP"; ""; "UCP"; "9.5"]; ["LIN"; "2"; "VP"; "SKU2"] ].

(** ** Worked inputs: API pages, transfers, tables, settings *)

Definition example_items (sku : string) : list json := [JObj {[ "sku" := JStr sku ]}].

(** A response with one item that names [next] as the page to ask for
    next; [JNull] for the last page. *)
Definition example_page (sku : string) (next : json) : json :=
  JObj {[ "items" := JArr (example_items sku); "next" := next ]}.

(** A server with two further pages: page 2 is the last one, page 3 names
    a page 4 that does not exist. *)
Definition example_http (url : json) : result json :=
  match url with
  | JStr "/page/2" => Ok (example_page "B2" JNull)
  | JStr "/page/3" => Ok (example_page "C3" (JStr "/page/4"))
  | _ => Raise (Exn RequestException "404 Client Error: Not Found")
  end.

(** A server whose every page names itself as the next. *)
Definition example_http_loop (url : json) : result json :=
  Ok (example_page "A1" (JStr "/page/1")).

(** The transfer succeeds. *)
Definition retr_ok (command : string) : result unit := Ok tt.

(** An EDI text with a line break after every segment terminator. *)
Definition example_edi_lines : list string :=
  [ "LIN*1*VP*SKU1"; String "010" "PID*F****Widget"; String "010" "CTP**UCP*9.5" ].

(** A rendering of values for the worked inputs. *)
Definition example_str (v : value) : string :=
  match v with
  | VStr s => s
  | _ => ""
  end.

(** Conversions for the worked inputs: integers as their decimals, and
    the numeric columns keeping what they are given. *)
Definition example_sqlite_text (v : value) : string :=
  match v with
  | VInt n => str_int n
  | _ => ""
  end.

Definition example_sqlite_numeric (aff : affinity) (v : value) : value := v.

(** The row of SKU A1 of vendor 1, linked to master product 7. *)
Definition example_stock_row : vendor_product_row :=
  {| vp_vendor_id := 1; vp_master_product_id := VInt 7; vp_vendor_sku := VStr "A1";
     vp_vendor_price := VStr "9.00"; vp_list_price := VNone; vp_map_price := VNone;
     vp_mrp_price := VNone; vp_quantity := VInt 3; vp_quantity_nj := VInt 0;
     vp_quantity_fl := VInt 0; vp_eta := VNone; vp_eta_nj := VNone;
     vp_eta_fl := VNone; vp_shipping_weight := VNone;
     vp_shipping_dimensions := VNone; vp_props := None; vp_status := "active" |}.

Definition example_table : gmap nat vendor_product_row := {[ 7%nat := example_stock_row ]}.

Definition example_product : record :=
  {[ "sku" := VStr "A1"; "price" := VStr "9.50" ]}.

(** A product without the key [sku]. *)
Definition example_unkeyed (name : string) : record := {[ "name" := VStr name ]}.


(** A configuration file that sets the database type and nothing else. *)
Definition example_user_config : gmap string json :=
  {[ "database" := JObj {[ "type" := JStr "postgresql" ]} ]}.

(** * Properties *)

(** ** Field mapper *)

Section MapperFacts.
Implicit Types (item : record) (mapping : field_mapping).

Lemma first_source_value_truthy item source_fields v :
  first_source_value item source_fields = Some v → truthy v = true.
Proof.
  induction source_fields as [|a l IH]; simpl; [done|].
  destruct (item !! a) as [x|]; [|done].
  destruct (truthy x) eqn:Hx; [|done].
  by intros [= <-].
Qed.

Lemma first_source_value_cons_skip item a l :
  has_value item a = false →
  first_source_value item (a :: l) = first_source_value item l.
Proof.
  unfold has_value. simpl. destruct (item !! a) as [x|]; [|done].
  by intros ->.
Qed.

Lemma first_source_value_skip item pre l :
  Forall (λ a, has_value item a = false) pre →
  first_source_value item (pre ++ l) = first_source_value item l.
Proof.
  induction 1 as [|a pre Ha _ IH]; [done|].
  rewrite <- app_comm_cons. by rewrite first_source_value_cons_skip.
Qed.

Lemma first_source_value_hit item a l v :
  item !! a = Some v → truthy v = true →
  first_source_value item (a :: l) = Some v.
Proof. intros Ha Hv. simpl. by rewrite Ha, Hv. Qed.

Lemma first_source_value_none item l :
  Forall (λ a, has_value item a = false) l → first_source_value item l = None.
Proof.
  intros Hl. rewrite <- (app_nil_r l). by rewrite first_source_value_skip.
Qed.

Lemma first_source_value_found item l v :
  first_source_value item l = Some v →
  ∃ pre a post, l = pre ++ a :: post ∧ item !! a = Some v
                ∧ Forall (λ b, has_value item b = false) pre.
Proof.
  induction l as [|a l IH]; simpl; [done|].
  destruct (item !! a) as [x|] eqn:Ha.
  - destruct (truthy x) eqn:Hx.
    + intros [= <-]. by exists [], a, l.
    + intros (pre & b & post & -> & Hb & Hpre)%IH.
      exists (a :: pre), b, post. split_and!; [done..|].
      constructor; [|done]. unfold has_value. by rewrite Ha.
  - intros (pre & b & post & -> & Hb & Hpre)%IH.
    exists (a :: pre), b, post. split_and!; [done..|].
    constructor; [|done]. unfold has_value. by rewrite Ha.
Qed.

(** The loop over [mapping.items()] computes, for each target, the first
    usable alias value. *)
Lemma apply_mapping_lookup mapping item target_field :
  apply_mapping mapping item !! target_field
  = mapping !! target_field ≫= first_source_value item.
Proof.
  unfold apply_mapping. revert target_field.
  apply (map_fold_weak_ind
           (λ (r : record) (m : field_mapping),
              ∀ t, r !! t = m !! t ≫= first_source_value item)).
  - intros t. by rewrite !lookup_empty.
  - intros i x m r Hi IH t.
    destruct (decide (i = t)) as [->|Hne].
    + rewrite lookup_insert_eq. simpl.
      destruct (first_source_value item x) as [v|] eqn:Hx.
      * by rewrite lookup_insert_eq.
      * by rewrite IH, Hi.
    + rewrite lookup_insert_ne by done.
      destruct (first_source_value item x) as [v|]; [|by apply IH].
      rewrite lookup_insert_ne by done. apply IH.
Qed.

Lemma apply_mapping_truthy mapping item k v :
  apply_mapping mapping item !! k = Some v → truthy v = true.
Proof.
  rewrite apply_mapping_lookup.
  destruct (mapping !! k) as [l|]; simpl; [|done].
  apply first_source_value_truthy.
Qed.

Lemma field_missing_apply_mapping mapping item k :
  field_missing (apply_mapping mapping item) k
  = bool_decide (apply_mapping mapping item !! k = None).
Proof.
  unfold field_missing.
  destruct (apply_mapping mapping item !! k) as [v|] eqn:Hk.
  - by rewrite (apply_mapping_truthy _ _ _ _ Hk).
  - done.
Qed.

Lemma apply_mapping_no_value mapping item k :
  Forall (λ a, has_value item a = false) (source_fields_of mapping k) →
  apply_mapping mapping item !! k = None.
Proof.
  unfold source_fields_of. rewrite apply_mapping_lookup.
  destruct (mapping !! k) as [l|]; simpl; [|done].
  apply first_source_value_none.
Qed.

Lemma first_source_value_delete_falsy item k v l :
  item !! k = Some v → truthy v = false →
  first_source_value (delete k item) l = first_source_value item l.
Proof.
  intros Hk Hv. induction l as [|a l IH]; simpl; [done|].
  destruct (decide (a = k)) as [->|Hne].
  - by rewrite lookup_delete_eq, Hk, Hv.
  - rewrite lookup_delete_ne by done. by rewrite IH.
Qed.

Lemma apply_mapping_first_alias mapping item target pre a post v :
  mapping !! target = Some (pre ++ a :: post) →
  Forall (λ b, has_value item b = false) pre →
  item !! a = Some v → truthy v = true →
  apply_mapping mapping item !! target = Some v.
Proof.
  intros Hm Hpre Ha Hv.
  rewrite apply_mapping_lookup, Hm. simpl.
  rewrite first_source_value_skip by done.
  by apply first_source_value_hit.
Qed.

End MapperFacts.

Lemma imported_of_cons_imported outcomes :
  imported_of (Imported :: outcomes) = Datatypes.S (imported_of outcomes).
Proof. unfold imported_of. by rewrite filter_cons_True. Qed.

Lemma imported_of_cons_failed err outcomes :
  imported_of (Failed err :: outcomes) = imported_of outcomes.
Proof. unfold imported_of. by rewrite filter_cons_False. Qed.

Lemma errors_of_cons_imported outcomes :
  errors_of (Imported :: outcomes) = errors_of outcomes.
Proof. done. Qed.

Lemma errors_of_cons_failed err outcomes :
  errors_of (Failed err :: outcomes) = err :: errors_of outcomes.
Proof. done. Qed.


(** C5: for every record and destination field the canonical value is that
    of the first alias, in the configured order, that is present with a
    truthy (non-empty) value: aliases before it have no value, and neither
    the aliases after it nor what the record holds under them have any
    influence.  Conversely a canonical value always arises this way.  Under
    the default mapping a record with non-empty [sku] and [product_id]
    gets the value of its [sku]. *)
Theorem C5_first_alias_wins :
  (∀ (mapping : field_mapping) (item : record) target pre a post v,
      mapping !! target = Some (pre ++ a :: post) →
      Forall (λ b, has_value item b = false) pre →
      item !! a = Some v → truthy v = true →
      apply_mapping mapping item !! target = Some v)
  ∧ (∀ (mapping : field_mapping) (item : record) target pre a post v b w,
      mapping !! target = Some (pre ++ a :: post) →
      Forall (λ b, has_value item b = false) pre →
      item !! a = Some v → truthy v = true →
      b ∉ pre → b ≠ a →
      apply_mapping mapping (<[b := w]> item) !! target = Some v)
  ∧ (∀ (mapping : field_mapping) (item : record) target v,
      apply_mapping mapping item !! target = Some v →
      ∃ pre a post,
        mapping !! target = Some (pre ++ a :: post)
        ∧ Forall (λ b, has_value item b = false) pre
        ∧ item !! a = Some v ∧ truthy v = true)
  ∧ (∀ (item : record) s p,
      item !! "sku" = Some s → truthy s = true →
      item !! "product_id" = Some p → truthy p = true →
      apply_mapping (effective_mapping None) item !! "sku" = Some s).
Proof.
  split_and!.
  - apply apply_mapping_first_alias.
  - intros mapping item target pre a post v b w Hm Hpre Ha Hv Hb Hba.
    apply (apply_mapping_first_alias _ _ _ pre a post); [done| |by rewrite lookup_insert_ne|done].
    apply Forall_forall. intros c Hc.
    rewrite Forall_forall in Hpre. specialize (Hpre c Hc).
    unfold has_value in *. rewrite lookup_insert_ne; [done|].
    intros ->. by apply Hb, list_elem_of_In.
  - intros mapping item target v Hv.
    pose proof (apply_mapping_truthy _ _ _ _ Hv) as Ht.
    rewrite apply_mapping_lookup in Hv.
    destruct (mapping !! target) as [l|]; simpl in Hv; [|done].
    destruct (first_source_value_found _ _ _ Hv) as (pre & a & post & -> & Ha & Hpre).
    by exists pre, a, post.
  - intros item s p Hs Hts _ _.
    apply (apply_mapping_first_alias _ _ _ [] "sku"
             ["product_id"; "item_number"; "part_number"; "id"]);
      [by vm_compute|constructor|done|done].
Qed.

Lemma C5_first_alias_wins_witness :
  apply_mapping (effective_mapping None)
    (list_to_map [("product_id", VStr "P9"); ("sku", VStr "A1")]) !! "sku"
  = Some (VStr "A1").
Proof.
  apply (proj2 (proj2 (proj2 C5_first_alias_wins)) _ (VStr "A1") (VStr "P9"));
    by vm_compute.
Defined.

(** ** Upsert coordinator, for any store *)

Section CoordinatorFacts.
Context {S : Type} `{CatalogStore S} (repr_item : record → string).
Implicit Types (item : record) (mapping : field_mapping) (st : S).

Lemma process_item_missing_sku vendor_id mapping st item :
  apply_mapping mapping item !! "sku" = None →
  process_item repr_item vendor_id mapping st item
  = (st, Failed (missing_field_error repr_item "sku" item)).
Proof.
  intros Hsku. unfold process_item.
  by rewrite field_missing_apply_mapping, Hsku.
Qed.

Lemma process_item_missing_name vendor_id mapping st item sku :
  apply_mapping mapping item !! "sku" = Some sku →
  apply_mapping mapping item !! "name" = None →
  process_item repr_item vendor_id mapping st item
  = (st, Failed (missing_field_error repr_item "name" item)).
Proof.
  intros Hsku Hname. unfold process_item.
  by rewrite !field_missing_apply_mapping, Hsku, Hname.
Qed.

(** A record with both required fields reaches the lookup, with the
    canonical record in hand. *)
Lemma process_item_valid vendor_id mapping st item sku name :
  apply_mapping mapping item !! "sku" = Some sku →
  apply_mapping mapping item !! "name" = Some name →
  process_item repr_item vendor_id mapping st item
  = match ProductController_get_by_vendor_sku st vendor_id sku with
    | Raise e => (st, Failed (item_exception_error repr_item item e))
    | Ok (Some existing_product) =>
        match ProductController_update st (product_id existing_product)
                (canonical_record vendor_id mapping item) with
        | Raise e => (st, Failed (item_exception_error repr_item item e))
        | Ok st' => (st', Imported)
        end
    | Ok None =>
        match ProductController_create st (canonical_record vendor_id mapping item) with
        | Raise e => (st, Failed (item_exception_error repr_item item e))
        | Ok st' => (st', Imported)
        end
    end.
Proof.
  intros Hsku Hname. unfold process_item, canonical_record.
  rewrite !field_missing_apply_mapping, Hsku, Hname. simpl.
  rewrite lookup_insert_ne by done. by rewrite Hsku.
Qed.

Lemma process_items_cons vendor_id mapping item rest st n errs :
  process_items repr_item vendor_id mapping (item :: rest) st n errs
  = match process_item repr_item vendor_id mapping st item with
    | (st', Imported) =>
        process_items repr_item vendor_id mapping rest st' (n + 1) errs
    | (st', Failed err) =>
        process_items repr_item vendor_id mapping rest st' n (errs ++ [err])
    end.
Proof. done. Qed.

(** The loop never stops early: a batch is processed as its two halves in
    sequence. *)
Lemma process_items_app vendor_id mapping d1 d2 st n errs :
  process_items repr_item vendor_id mapping (d1 ++ d2) st n errs
  = let '(st1, (n1, errs1)) := process_items repr_item vendor_id mapping d1 st n errs in
    process_items repr_item vendor_id mapping d2 st1 n1 errs1.
Proof.
  revert st n errs. induction d1 as [|item d1 IH]; intros st n errs; [done|].
  rewrite <- app_comm_cons, !process_items_cons.
  destruct (process_item repr_item vendor_id mapping st item) as [st' [|err]];
    apply IH.
Qed.

(** The result of the loop against the per-record outcomes. *)
Lemma process_items_outcomes vendor_id mapping data st n errs :
  process_items repr_item vendor_id mapping data st n errs
  = (store_after repr_item vendor_id mapping data st,
     (n + imported_of (item_outcomes repr_item vendor_id mapping data st),
      errs ++ errors_of (item_outcomes repr_item vendor_id mapping data st))).
Proof.
  revert st n errs. induction data as [|item data IH]; intros st n errs.
  - simpl. unfold imported_of, errors_of. simpl.
    by rewrite Nat.add_0_r, app_nil_r.
  - rewrite process_items_cons. cbn [item_outcomes store_after].
    destruct (process_item repr_item vendor_id mapping st item) as [st' [|err]];
      cbn [fst]; rewrite IH.
    + rewrite imported_of_cons_imported, errors_of_cons_imported.
      do 2 f_equal. lia.
    + rewrite imported_of_cons_failed, errors_of_cons_failed.
      by rewrite <- app_assoc.
Qed.





(** C2: a record in which no alias of [sku] carries a value is rejected
    with the error naming [sku]: the store is as it was, the success count
    is as it was, the error is appended and the loop goes on with the rest
    of the batch.  The same holds for a record in which no alias of [name]
    carries a value; the error then names [name], or [sku] when that is
    missing too, [sku] being tested first. *)
Theorem C2_missing_required_field_rejected :
  ∀ vendor_id mapping item rest st n errs,
    (Forall (λ a, has_value item a = false) (source_fields_of mapping "sku") →
     process_item repr_item vendor_id mapping st item
     = (st, Failed (missing_field_error repr_item "sku" item))
     ∧ process_items repr_item vendor_id mapping (item :: rest) st n errs
       = process_items repr_item vendor_id mapping rest st n
           (errs ++ [missing_field_error repr_item "sku" item]))
    ∧ (Forall (λ a, has_value item a = false) (source_fields_of mapping "name") →
       ∃ k, (k = "name" ∨ k = "sku"
                         ∧ apply_mapping mapping item !! "sku" = None)
            ∧ process_item repr_item vendor_id mapping st item
              = (st, Failed (missing_field_error repr_item k item))
            ∧ process_items repr_item vendor_id mapping (item :: rest) st n errs
              = process_items repr_item vendor_id mapping rest st n
                  (errs ++ [missing_field_error repr_item k item])).
Proof.
  intros vendor_id mapping item rest st n errs. split.
  - intros Hno%apply_mapping_no_value.
    pose proof (process_item_missing_sku vendor_id mapping st item Hno) as Hp.
    split; [done|]. by rewrite process_items_cons, Hp.
  - intros Hno%apply_mapping_no_value.
    destruct (apply_mapping mapping item !! "sku") as [sku|] eqn:Hsku.
    + exists "name".
      pose proof (process_item_missing_name vendor_id mapping st item sku Hsku Hno) as Hp.
      split_and!; [by left|done|]. by rewrite process_items_cons, Hp.
    + exists "sku".
      pose proof (process_item_missing_sku vendor_id mapping st item Hsku) as Hp.
      split_and!; [by right|done|]. by rewrite process_items_cons, Hp.
Qed.

(** C10: when the lookup of the target vendor finds none, the pipeline
    returns zero and the single vendor-not-found error, whatever the
    batch, and the store is untouched: no record is processed. *)
Theorem C10_missing_vendor_aborts_batch :
  ∀ data vendor_id (mapping : option field_mapping) st,
    VendorController_get_by_id st vendor_id = Ok None →
    _process_mapped_data repr_item data vendor_id mapping st
    = Ok (st, (0, [vendor_not_found_error vendor_id])).
Proof.
  intros data vendor_id mapping st Hv. unfold _process_mapped_data. by rewrite Hv.
Qed.

(** C9: a present but falsy alias value (None, the empty string, a numeric
    zero, False) is to the field mapper what an absent alias is: the
    canonical record is the one obtained from the record without that key;
    when every alias of a destination field is present and falsy the field
    is omitted; a price of zero gives way to the [cost] alias; a record
    whose only [sku] alias holds 0 is rejected as missing [sku]. *)
Theorem C9_falsy_is_absent :
  (truthy VNone = false ∧ truthy (VStr "") = false ∧ truthy (VInt 0) = false
   ∧ (∀ s, truthy (VFloat (S754_zero s)) = false) ∧ truthy (VBool false) = false)
  ∧ (∀ mapping item k v,
       item !! k = Some v → truthy v = false →
       apply_mapping mapping item = apply_mapping mapping (delete k item))
  ∧ (∀ mapping item target,
       Forall (λ a, ∃ v, item !! a = Some v ∧ truthy v = false)
              (source_fields_of mapping target) →
       apply_mapping mapping item !! target = None)
  ∧ (∀ item p c,
       item !! "price" = Some p → (p = VInt 0 ∨ ∃ s, p = VFloat (S754_zero s)) →
       item !! "cost" = Some c → truthy c = true →
       apply_mapping (effective_mapping None) item !! "price" = Some c)
  ∧ (∀ vendor_id st item,
       item !! "sku" = Some (VInt 0) →
       (∀ a, a ∈ ["product_id"; "item_number"; "part_number"; "id"] → item !! a = None) →
       process_item repr_item vendor_id (effective_mapping None) st item
       = (st, Failed (missing_field_error repr_item "sku" item))).
Proof.
  split; [by repeat split|]. split_and!.
  - intros mapping item k v Hk Hv. apply map_eq. intros t.
    rewrite !apply_mapping_lookup.
    destruct (mapping !! t) as [l|]; simpl; [|done].
    symmetry. by eapply first_source_value_delete_falsy.
  - intros mapping item target Hall. apply apply_mapping_no_value.
    eapply Forall_impl; [exact Hall|]. intros a (v & Ha & Hv).
    unfold has_value. by rewrite Ha.
  - intros item p c Hp Hzero Hc Htc.
    apply (apply_mapping_first_alias _ _ _ ["price"] "cost" ["wholesale_price"; "msrp"]);
      [by vm_compute| |done|done].
    constructor; [|constructor]. unfold has_value. rewrite Hp.
    by destruct Hzero as [->|[s ->]].
  - intros vendor_id st item Hsku Hrest.
    apply process_item_missing_sku, apply_mapping_no_value.
    replace (source_fields_of (effective_mapping None) "sku")
      with ["sku"; "product_id"; "item_number"; "part_number"; "id"] by by vm_compute.
    constructor.
    + unfold has_value. by rewrite Hsku.
    + apply Forall_forall. intros a Ha. unfold has_value. by rewrite (Hrest a Ha).
Qed.

End CoordinatorFacts.

(** ** The catalog store *)

Section CatalogFacts.
Implicit Types (c : catalog) (row product_data : record).

Lemma alter_as_insert (f : record → record) id row (m : gmap nat record) :
  m !! id = Some row → alter f id m = <[id := f row]> m.
Proof.
  intros Hid. apply map_eq. intros j. rewrite lookup_alter.
  destruct (decide (id = j)) as [->|Hne].
  - by rewrite Hid, lookup_insert_eq.
  - by rewrite lookup_insert_ne.
Qed.

Lemma catalog_find_Some c vendor_id sku p :
  catalog_find_by_vendor_sku c vendor_id sku = Some p →
  cat_products c !! product_id p = Some (product_fields p)
  ∧ is_offer vendor_id sku (product_fields p).
Proof.
  unfold catalog_find_by_vendor_sku.
  destruct (head _) as [[id row]|] eqn:Hh; simpl; [|done].
  intros [= <-]. simpl.
  apply head_Some_elem_of, elem_of_map_to_list, map_lookup_filter_Some in Hh.
  done.
Qed.

Lemma catalog_find_None c vendor_id sku :
  (∀ id row, cat_products c !! id = Some row → ¬ is_offer vendor_id sku row) →
  catalog_find_by_vendor_sku c vendor_id sku = None.
Proof.
  intros Hno. destruct (catalog_find_by_vendor_sku c vendor_id sku) as [p|] eqn:Hp;
    [|done].
  apply catalog_find_Some in Hp as [Hrow Hoffer]. by destruct (Hno _ _ Hrow).
Qed.

Lemma catalog_find_exists c vendor_id sku id row :
  cat_products c !! id = Some row → is_offer vendor_id sku row →
  ∃ p, catalog_find_by_vendor_sku c vendor_id sku = Some p.
Proof.
  intros Hrow Hoffer. unfold catalog_find_by_vendor_sku.
  destruct (head _) as [kv|] eqn:Hh; [by eexists|]. exfalso.
  apply head_None, map_to_list_empty_iff in Hh.
  assert (filter (λ kv : nat * record, is_offer vendor_id sku kv.2) (cat_products c)
          !! id = Some row) as Hin by by apply map_lookup_filter_Some.
  by rewrite Hh, lookup_empty in Hin.
Qed.

Lemma fresh_row_id c : cat_products c !! fresh (dom (cat_products c)) = None.
Proof. apply not_elem_of_dom, is_fresh. Qed.

Lemma vendor_row_count_replace c id row row' vendor_id :
  cat_products c !! id = Some row →
  row !! "vendor_id" = Some (VInt vendor_id) →
  row' !! "vendor_id" = Some (VInt vendor_id) →
  vendor_row_count (Catalog (cat_vendors c) (<[id := row']> (cat_products c))) vendor_id
  = vendor_row_count c vendor_id.
Proof.
  intros Hid Hrow Hrow'. unfold vendor_row_count, vendor_rows. simpl.
  rewrite map_filter_insert_True by done.
  apply map_size_insert_Some. exists row. by apply map_lookup_filter_Some.
Qed.

Lemma vendor_row_count_new c id row vendor_id :
  cat_products c !! id = None →
  row !! "vendor_id" = Some (VInt vendor_id) →
  vendor_row_count (Catalog (cat_vendors c) (<[id := row]> (cat_products c))) vendor_id
  = Datatypes.S (vendor_row_count c vendor_id).
Proof.
  intros Hid Hrow. unfold vendor_row_count, vendor_rows. simpl.
  rewrite map_filter_insert_True by done.
  apply map_size_insert_None, map_lookup_filter_None. by left.
Qed.

Lemma canonical_record_vendor vendor_id mapping item :
  canonical_record vendor_id mapping item !! "vendor_id" = Some (VInt vendor_id).
Proof. unfold canonical_record. by rewrite lookup_insert_eq. Qed.

Lemma canonical_record_other vendor_id mapping item k :
  k ≠ "vendor_id" →
  canonical_record vendor_id mapping item !! k = apply_mapping mapping item !! k.
Proof. intros Hk. unfold canonical_record. by rewrite lookup_insert_ne. Qed.

Lemma canonical_record_keys vendor_id mapping item k :
  is_Some (canonical_record vendor_id mapping item !! k) →
  k = "vendor_id" ∨ is_Some (mapping !! k).
Proof.
  intros Hk. destruct (decide (k = "vendor_id")) as [->|Hne]; [by left|]. right.
  rewrite canonical_record_other, apply_mapping_lookup in Hk by done.
  destruct (mapping !! k); [done|]. by destruct Hk.
Qed.

(** What [process_item] does on the catalog with a valid record. *)
Lemma process_item_catalog repr_item c vendor_id mapping item sku name :
  apply_mapping mapping item !! "sku" = Some sku →
  apply_mapping mapping item !! "name" = Some name →
  process_item repr_item vendor_id mapping c item
  = (match catalog_find_by_vendor_sku c vendor_id sku with
     | Some existing_product =>
         catalog_update c (product_id existing_product)
                        (canonical_record vendor_id mapping item)
     | None => catalog_create c (canonical_record vendor_id mapping item)
     end, Imported).
Proof.
  intros Hsku Hname.
  rewrite (process_item_valid repr_item vendor_id mapping c item sku name) by done.
  simpl. by destruct (catalog_find_by_vendor_sku c vendor_id sku).
Qed.

Lemma process_item_catalog_update repr_item c vendor_id mapping item sku name id row :
  natural_key_unique c →
  apply_mapping mapping item !! "sku" = Some sku →
  apply_mapping mapping item !! "name" = Some name →
  cat_products c !! id = Some row → is_offer vendor_id sku row →
  process_item repr_item vendor_id mapping c item
  = (Catalog (cat_vendors c)
             (<[id := canonical_record vendor_id mapping item ∪ row]> (cat_products c)),
     Imported).
Proof.
  intros Huniq Hsku Hname Hrow Hoffer.
  rewrite (process_item_catalog _ _ _ _ _ sku name) by done.
  destruct (catalog_find_exists _ _ _ _ _ Hrow Hoffer) as [p Hp]. rewrite Hp.
  apply catalog_find_Some in Hp as [Hprow Hpoffer].
  assert (product_id p = id) as Hid by by eapply Huniq.
  rewrite Hid in *. assert (product_fields p = row) as <- by congruence.
  unfold catalog_update. by erewrite alter_as_insert.
Qed.

Lemma process_item_catalog_create repr_item c vendor_id mapping item sku name :
  apply_mapping mapping item !! "sku" = Some sku →
  apply_mapping mapping item !! "name" = Some name →
  (∀ id row, cat_products c !! id = Some row → ¬ is_offer vendor_id sku row) →
  process_item repr_item vendor_id mapping c item
  = (catalog_create c (canonical_record vendor_id mapping item), Imported).
Proof.
  intros Hsku Hname Hno.
  rewrite (process_item_catalog _ _ _ _ _ sku name) by done.
  by rewrite catalog_find_None.
Qed.

Lemma is_offer_canonical_union vendor_id mapping item sku row vendor_id' sku' :
  apply_mapping mapping item !! "sku" = Some sku →
  is_offer vendor_id' sku' (canonical_record vendor_id mapping item ∪ row)
  ↔ vendor_id' = vendor_id ∧ sku' = sku.
Proof.
  intros Hsku. unfold is_offer.
  rewrite (lookup_union_Some_l _ row "vendor_id" (VInt vendor_id))
    by apply canonical_record_vendor.
  rewrite (lookup_union_Some_l _ row "sku" sku)
    by by rewrite canonical_record_other.
  split; [by intros [[= ->] [= ->]]|by intros [-> ->]].
Qed.

(** The coordinator keeps the natural key unique. *)
Lemma process_item_preserves_unique repr_item c vendor_id mapping item :
  natural_key_unique c →
  natural_key_unique (process_item repr_item vendor_id mapping c item).1.
Proof.
  intros Huniq.
  destruct (apply_mapping mapping item !! "sku") as [sku|] eqn:Hsku;
    [|by rewrite process_item_missing_sku].
  destruct (apply_mapping mapping item !! "name") as [name|] eqn:Hname;
    [|by rewrite (process_item_missing_name _ _ _ _ _ sku)].
  rewrite (process_item_catalog _ _ _ _ _ sku name) by done.
  destruct (catalog_find_by_vendor_sku c vendor_id sku) as [p|] eqn:Hfind; simpl.
  - apply catalog_find_Some in Hfind as [Hrow Hoffer].
    unfold catalog_update.
    rewrite (alter_as_insert _ _ _ _ Hrow).
    assert (∀ id row' v s,
              <[product_id p := canonical_record vendor_id mapping item
                                ∪ product_fields p]> (cat_products c) !! id = Some row' →
              is_offer v s row' →
              ∃ old, cat_products c !! id = Some old ∧ is_offer v s old) as Hold.
    { intros id row' v s [[<- <-]|[_ Hother]]%lookup_insert_Some Hoff.
      - exists (product_fields p). split; [done|].
        apply (is_offer_canonical_union _ _ _ sku) in Hoff as [-> ->]; done.
      - by exists row'. }
    intros id1 id2 row1 row2 v s Hrow1 Hrow2 Hoff1 Hoff2. simpl in *.
    destruct (Hold _ _ _ _ Hrow1 Hoff1) as (old1 & Hold1 & Hoffold1).
    destruct (Hold _ _ _ _ Hrow2 Hoff2) as (old2 & Hold2 & Hoffold2).
    by eapply Huniq.
  - assert (∀ id row, cat_products c !! id = Some row →
                      ¬ is_offer vendor_id sku row) as Hnone.
    { intros id row Hrow Hoff.
      destruct (catalog_find_exists _ _ _ _ _ Hrow Hoff) as [p Hp]. congruence. }
    assert (∀ v s, is_offer v s (canonical_record vendor_id mapping item) →
                   v = vendor_id ∧ s = sku) as Hkey.
    { intros v s [Hv Hs]. rewrite canonical_record_vendor in Hv.
      rewrite canonical_record_other, Hsku in Hs by done.
      by injection Hv as ->; injection Hs as ->. }
    intros id1 id2 row1 row2 v s. unfold catalog_create. simpl.
    intros [[<- <-]|[_ Hrow1]]%lookup_insert_Some
           [[<- <-]|[_ Hrow2]]%lookup_insert_Some Hoff1 Hoff2.
    + done.
    + destruct (Hkey _ _ Hoff1) as [-> ->]. by destruct (Hnone _ _ Hrow2).
    + destruct (Hkey _ _ Hoff2) as [-> ->]. by destruct (Hnone _ _ Hrow1).
    + by eapply Huniq.
Qed.

End CatalogFacts.

(** C1, on the catalog store: a record that passes validation and whose
    mapped SKU is the SKU of a row of the target vendor updates that very
    row (the row keeps its identity, no identity is added or removed) and
    the number of rows of that vendor is unchanged; a record whose mapped
    SKU matches no row of the vendor is inserted under an identity that
    was free, and the number of rows of that vendor grows by exactly one. *)
Theorem C1_upsert_by_natural_key :
  ∀ (repr_item : record → string) (c : catalog) vendor_id
    (mapping : field_mapping) (item : record) sku name,
    natural_key_unique c →
    apply_mapping mapping item !! "sku" = Some sku →
    apply_mapping mapping item !! "name" = Some name →
    (∀ id row,
       cat_products c !! id = Some row → is_offer vendor_id sku row →
       process_item repr_item vendor_id mapping c item
       = (Catalog (cat_vendors c)
                  (<[id := canonical_record vendor_id mapping item ∪ row]>
                     (cat_products c)),
          Imported)
       ∧ dom (cat_products (process_item repr_item vendor_id mapping c item).1)
         = dom (cat_products c)
       ∧ vendor_row_count (process_item repr_item vendor_id mapping c item).1 vendor_id
         = vendor_row_count c vendor_id)
    ∧ ((∀ id row, cat_products c !! id = Some row → ¬ is_offer vendor_id sku row) →
       ∃ id,
         cat_products c !! id = None
         ∧ process_item repr_item vendor_id mapping c item
           = (Catalog (cat_vendors c)
                      (<[id := canonical_record vendor_id mapping item]> (cat_products c)),
              Imported)
         ∧ vendor_row_count (process_item repr_item vendor_id mapping c item).1 vendor_id
           = Datatypes.S (vendor_row_count c vendor_id)).
Proof.
  intros repr_item c vendor_id mapping item sku name Huniq Hsku Hname. split.
  - intros id row Hrow Hoffer.
    rewrite (process_item_catalog_update _ _ _ _ _ sku name id row) by done.
    split_and!; [done| |]; simpl.
    + by apply dom_insert_lookup_L.
    + apply (vendor_row_count_replace c id row); [done|apply Hoffer|].
      apply lookup_union_Some_l, canonical_record_vendor.
  - intros Hno. exists (fresh (dom (cat_products c))).
    rewrite (process_item_catalog_create _ _ _ _ _ sku name) by done.
    split_and!; [apply fresh_row_id|done|]. simpl.
    apply vendor_row_count_new; [apply fresh_row_id|apply canonical_record_vendor].
Qed.

Section CatalogBatches.
Implicit Types (c : catalog) (row product_data : record).






End CatalogBatches.

(** ** Source readers *)

Section TryExcept.
Context {S : Type}.

Lemma find_handler_catch_all {B : Type} (handlers : list (except_clause * B)) c :
  Exists (λ ch, ch.1 = ExceptException) handlers →
  ∃ ch, ch ∈ handlers ∧ find_handler handlers c = Some ch.2.
Proof.
  induction handlers as [|[clause h] l IH]; intros Hex; [by inversion Hex|].
  simpl. destruct (catches clause c) eqn:Hc.
  - exists (clause, h). split; [by left|done].
  - inversion Hex as [? ? Hhead|? ? Htail]; subst.
    + simpl in Hhead. subst clause. by destruct c.
    + destruct (IH Htail) as (ch & Hin & Hfind). exists ch. split; [by right|done].
Qed.

(** A [try] whose last clause is [except Exception] and whose handlers
    return zero and one message contains every failure of its body. *)
Lemma try_except_errors_as_data (body : M S (nat * list string)) handlers :
  Exists (λ ch, ch.1 = ExceptException) handlers →
  Forall (λ ch : except_clause * (exn → M S (nat * list string)),
            ∀ e, ∃ msg, ch.2 e = ret (0%nat, [msg])) handlers →
  errors_as_data (try_except body handlers) body.
Proof.
  intros Hall Hret w.
  assert (∀ w' e, body w = (w', Raise e) →
                  ∃ msg, try_except body handlers w = (w', Ok (0%nat, [msg]))) as Hraise.
  { intros w' e Hbody. unfold try_except. rewrite Hbody.
    destruct (find_handler_catch_all handlers (exn_cls e) Hall) as (ch & Hin & ->).
    rewrite Forall_forall in Hret. destruct (Hret ch Hin e) as [msg ->].
    by exists msg. }
  split; [|done].
  destruct (body w) as [w' [r|e]] eqn:Hbody.
  - exists w', r. unfold try_except. by rewrite Hbody.
  - destruct (Hraise w' e eq_refl) as [msg ->]. by eexists _, _.
Qed.

Lemma try_except_ok {A : Type} (body : M S A) handlers w w' a :
  body w = (w', Ok a) → try_except body handlers w = (w', Ok a).
Proof. intros Hbody. unfold try_except. by rewrite Hbody. Qed.

End TryExcept.

Ltac handlers_return :=
  repeat (apply Forall_cons; split; [intros ?; eexists; reflexivity|]);
  by apply Forall_nil.

Ltac catch_all_present :=
  repeat first [ apply Exists_cons_hd; reflexivity | apply Exists_cons_tl ].

Section ReaderFacts.
Context {S : Type} `{CatalogStore S}.
Context (repr_item : record → string) (py_float : string → option spec_float).
Context (read_csv read_excel read_json read_xml : string → result (list record)).
Context (api_fetch_items :
  option string → option (string * string) → gmap string string →
  gmap string string → api_config → result (list record)).
Context (ftp_nlst : string → Z → string → string → string → result (list string)).
Context (open_wb : string → result unit) (ftp_retrbinary : string → result unit).


Lemma _import_from_csv_contains file_path vendor_id mapping :
  errors_as_data (_import_from_csv repr_item read_csv file_path vendor_id mapping)
                 (file_reader_body repr_item read_csv file_path vendor_id mapping).
Proof. apply try_except_errors_as_data; [catch_all_present|handlers_return]. Qed.

Lemma _import_from_excel_contains file_path vendor_id mapping :
  errors_as_data (_import_from_excel repr_item read_excel file_path vendor_id mapping)
                 (file_reader_body repr_item read_excel file_path vendor_id mapping).
Proof. apply try_except_errors_as_data; [catch_all_present|handlers_return]. Qed.

Lemma _import_from_json_contains file_path vendor_id mapping :
  errors_as_data (_import_from_json repr_item read_json file_path vendor_id mapping)
                 (file_reader_body repr_item read_json file_path vendor_id mapping).
Proof. apply try_except_errors_as_data; [catch_all_present|handlers_return]. Qed.

Lemma _import_from_xml_contains file_path vendor_id mapping :
  errors_as_data (_import_from_xml repr_item read_xml file_path vendor_id mapping)
                 (file_reader_body repr_item read_xml file_path vendor_id mapping).
Proof. apply try_except_errors_as_data; [catch_all_present|handlers_return]. Qed.

Lemma import_from_file_returns file_path vendor_id mapping w :
  ∃ w' r, import_from_file repr_item read_csv read_excel read_json read_xml
            file_path vendor_id mapping w = (w', Ok r).
Proof.
  unfold import_from_file. repeat case_decide.
  - apply _import_from_csv_contains.
  - apply _import_from_excel_contains.
  - apply _import_from_json_contains.
  - apply _import_from_xml_contains.
  - by eexists _, _.
Qed.

(** C6: no reader lets an exception out, and a reader whose read fails
    returns zero records and one error string.  For the four file formats,
    the API, SFTP and EDI readers: the call always returns a pair, and
    whenever the guarded block raises (a missing file, a malformed
    payload, a failed request or transfer, any other exception) the pair
    is zero and a one-element error list.  [import_from_file] always
    returns, and for an extension it does not know it returns zero and the
    unsupported-format error without touching anything. *)
Theorem C6_readers_contain_failures :
  ∀ file_path vendor_id (mapping : option field_mapping)
    (api_config : api_config) (sftp_config : sftp_config) (edi_data : string),
    errors_as_data (_import_from_csv repr_item read_csv file_path vendor_id mapping)
                   (file_reader_body repr_item read_csv file_path vendor_id mapping)
    ∧ errors_as_data (_import_from_excel repr_item read_excel file_path vendor_id mapping)
                     (file_reader_body repr_item read_excel file_path vendor_id mapping)
    ∧ errors_as_data (_import_from_json repr_item read_json file_path vendor_id mapping)
                     (file_reader_body repr_item read_json file_path vendor_id mapping)
    ∧ errors_as_data (_import_from_xml repr_item read_xml file_path vendor_id mapping)
                     (file_reader_body repr_item read_xml file_path vendor_id mapping)
    ∧ (∀ w, ∃ w' r,
         import_from_file repr_item read_csv read_excel read_json read_xml
           file_path vendor_id mapping w = (w', Ok r))
    ∧ (lower (splitext_ext file_path) ∉ [".csv"; ".xlsx"; ".xls"; ".json"; ".xml"] →
       ∀ w, import_from_file repr_item read_csv read_excel read_json read_xml
              file_path vendor_id mapping w
            = (w, Ok (0%nat, ["Unsupported file format: "
                               +:+ lower (splitext_ext file_path)])))
    ∧ errors_as_data
        (import_from_api repr_item api_fetch_items api_config vendor_id mapping)
        (import_from_api_body repr_item api_fetch_items api_config vendor_id mapping)
    ∧ errors_as_data
        (import_from_sftp repr_item read_csv read_excel read_json read_xml
           ftp_nlst open_wb ftp_retrbinary sftp_config vendor_id mapping)
        (import_from_sftp_body repr_item read_csv read_excel read_json read_xml
           ftp_nlst open_wb ftp_retrbinary sftp_config vendor_id mapping)
    ∧ errors_as_data
        (import_from_edi repr_item py_float edi_data vendor_id mapping)
        (import_from_edi_body repr_item py_float edi_data vendor_id mapping).
Proof.
  intros file_path vendor_id mapping api_config sftp_config edi_data. split_and!.
  - apply _import_from_csv_contains.
  - apply _import_from_excel_contains.
  - apply _import_from_json_contains.
  - apply _import_from_xml_contains.
  - apply import_from_file_returns.
  - intros Hext w. unfold import_from_file.
    apply not_elem_of_cons in Hext as [Hcsv Hext].
    apply not_elem_of_cons in Hext as [Hxlsx Hext].
    apply not_elem_of_cons in Hext as [Hxls Hext].
    apply not_elem_of_cons in Hext as [Hjson Hext].
    apply not_elem_of_cons in Hext as [Hxml _].
    rewrite (decide_False (P := _ = ".csv")) by done.
    rewrite (decide_False (P := _ ∈ _))
      by (rewrite !not_elem_of_cons; split_and!; [done..|apply not_elem_of_nil]).
    rewrite (decide_False (P := _ = ".json")) by done.
    by rewrite (decide_False (P := _ = ".xml")) by done.
  - apply try_except_errors_as_data; [catch_all_present|handlers_return].
  - apply try_except_errors_as_data; [catch_all_present|handlers_return].
  - apply try_except_errors_as_data; [catch_all_present|handlers_return].
Qed.

End ReaderFacts.

(** ** Results of a batch *)


(** ** EDI reader *)

Section StringFacts.

Lemma split_nonempty sep s : split sep s ≠ [].
Proof.
  destruct s as [|c s]; simpl; [done|].
  destruct (Ascii.eqb c sep); [done|]. by destruct (split sep s).
Qed.

Lemma split_no_sep sep s :
  contains_char sep s = false → split sep s = [s].
Proof.
  unfold contains_char. induction s as [|c s IH]; simpl; [done|].
  intros [Hc Hs]%orb_false_elim. rewrite Ascii.eqb_sym in Hc.
  rewrite Hc. by rewrite IH.
Qed.

Lemma split_app_sep sep p s :
  contains_char sep p = false →
  split sep (p +:+ String sep s) = p :: split sep s.
Proof.
  unfold contains_char. induction p as [|c p IH]; simpl.
  - intros _. by rewrite Ascii.eqb_refl.
  - intros [Hc Hp]%orb_false_elim. rewrite Ascii.eqb_sym in Hc.
    rewrite Hc. by rewrite IH.
Qed.

(** Splitting undoes joining. *)
Lemma split_join sep parts :
  parts ≠ [] → Forall (λ p, contains_char sep p = false) parts →
  split sep (join sep parts) = parts.
Proof.
  intros Hne Hall. induction Hall as [|p rest Hp Hrest IH]; [done|].
  destruct rest as [|q rest].
  - simpl. by apply split_no_sep.
  - change (join sep (p :: q :: rest)) with (p +:+ String sep (join sep (q :: rest))).
    rewrite split_app_sep by done. by rewrite IH.
Qed.

(** Joining undoes splitting. *)
Lemma join_split sep s : join sep (split sep s) = s.
Proof.
  induction s as [|c s IH]; simpl; [done|].
  destruct (Ascii.eqb_spec c sep) as [->|Hne].
  - pose proof (split_nonempty sep s) as Hs.
    destruct (split sep s) as [|q rest]; [done|].
    change (join sep ("" :: q :: rest)) with (String sep (join sep (q :: rest))).
    by rewrite IH.
  - destruct (split sep s) as [|q rest] eqn:Hs; [by destruct (split_nonempty sep s)|].
    rewrite <- IH. by destruct rest.
Qed.

Lemma split_parts_no_sep sep s :
  Forall (λ p, contains_char sep p = false) (split sep s).
Proof.
  induction s as [|c s IH]; simpl.
  - by repeat constructor.
  - destruct (Ascii.eqb_spec c sep) as [->|Hne].
    + by constructor.
    + destruct (split sep s) as [|q rest]; [repeat constructor|].
      * unfold contains_char. simpl. rewrite orb_false_r.
        apply Ascii.eqb_neq. congruence.
      * apply Forall_cons in IH as [Hq Hrest]. constructor; [|done].
        unfold contains_char in *. simpl. rewrite Hq, orb_false_r.
        apply Ascii.eqb_neq. congruence.
Qed.

Lemma split_head_prefix sep s e l :
  split sep s = e :: l → ∃ t, s = e +:+ t.
Proof.
  intros Hs. exists (match l with [] => "" | _ => String sep (join sep l) end).
  rewrite <- (join_split sep s) at 1. rewrite Hs. destruct l; simpl; [|done].
  clear Hs. induction e as [|c e IH]; [done|].
  change (String c e = String c (e +:+ "")). by f_equal.
Qed.

Lemma strip_nonspace_head c s : is_space c = false → strip (String c s) ≠ "".
Proof.
  intros Hc. unfold strip. simpl. rewrite Hc. simpl.
  destruct (rstrip s); [by rewrite Hc|done].
Qed.

Lemma contains_char_app c s t :
  contains_char c (s +:+ t) = contains_char c s || contains_char c t.
Proof.
  unfold contains_char. induction s as [|a s IH]; [done|].
  change (String a s +:+ t) with (String a (s +:+ t)). simpl.
  by rewrite IH, orb_assoc.
Qed.

Lemma contains_char_join c sep parts :
  Ascii.eqb c sep = false →
  Forall (λ e, contains_char c e = false) parts →
  contains_char c (join sep parts) = false.
Proof.
  intros Hsep Hall. induction Hall as [|e rest He Hrest IH]; [done|].
  destruct rest as [|q rest]; [done|].
  change (join sep (e :: q :: rest)) with (e +:+ String sep (join sep (q :: rest))).
  rewrite contains_char_app, He. simpl.
  unfold contains_char in *. simpl. simpl in IH. by rewrite Hsep, IH.
Qed.

End StringFacts.

Section EdiFacts.
Context (py_float : string → option spec_float).

Lemma blank_segment_ignored st segment :
  strip segment = "" → edi_spec_segment py_float st (split "*" segment) = st.
Proof.
  intros Hblank.
  destruct (split "*" segment) as [|segment_id rest] eqn:Hs; [done|].
  apply split_head_prefix in Hs as [t ->]. simpl.
  repeat case_decide; subst; try done; by apply strip_nonspace_head in Hblank.
Qed.

(** The loop body, segment by segment, does what the document says. *)
Lemma edi_segment_spec st segment :
  edi_segment py_float st segment
  = edi_spec_segment py_float st (split "*" segment).
Proof.
  unfold edi_segment. case_decide as Hblank.
  - by rewrite blank_segment_ignored.
  - destruct (split "*" segment) as [|segment_id rest] eqn:Hs;
      [by destruct (split_nonempty "*" segment)|].
    simpl. repeat case_decide; try done.
    destruct (rest !! 2%nat) as [text|]; simpl; [|done]. by destruct (py_float text).
Qed.

Lemma edi_fold_spec segments st :
  fold_left (edi_segment py_float) segments st
  = fold_left (edi_spec_segment py_float) (split "*" <$> segments) st.
Proof.
  revert st. induction segments as [|segment segments IH]; intros st; [done|].
  simpl. by rewrite edi_segment_spec, IH.
Qed.

End EdiFacts.

(** C7: the EDI reader cuts the text at every [~] into segments and each
    segment at every [*] into elements, and treats the segments in order as
    the document says: [LIN] flushes the open product and starts a new one
    seeded with the SKU at position 3 when there is one, [PID] sets the
    name from position 5, [CTP] sets the price from position 3 when it
    parses as a number and changes nothing when it does not, and the
    product open at the end is flushed.  An open product is one that holds
    at least one field.  Cutting is exact: the pieces contain no separator,
    joined again they give the text, and a text assembled from
    separator-free elements is cut into those elements. *)
Theorem C7_edi_reader :
  ∀ (py_float : string → option spec_float),
    (∀ edi_data,
       edi_products py_float edi_data
       = edi_spec_products py_float (split "*" <$> split "~" edi_data))
    ∧ (∀ sep s, join sep (split sep s) = s
                ∧ Forall (λ p, contains_char sep p = false) (split sep s))
    ∧ (∀ segments : list (list string),
         segments ≠ [] →
         Forall (λ elements,
                   elements ≠ []
                   ∧ Forall (λ e, contains_char "*" e = false
                                  ∧ contains_char "~" e = false) elements)
                segments →
         edi_products py_float (join "~" (join "*" <$> segments))
         = edi_spec_products py_float segments)
    ∧ (∀ st rest,
         edi_spec_segment py_float st ("LIN" :: rest)
         = EdiState (flush_product st)
                    (from_option (λ sku, {[ "sku" := VStr sku ]}) ∅ (rest !! 2%nat)))
    ∧ (∀ st rest name,
         rest !! 4%nat = Some name →
         edi_spec_segment py_float st ("PID" :: rest)
         = EdiState (products_data st) (<["name" := VStr name]> (current_product st)))
    ∧ (∀ st rest text price,
         rest !! 2%nat = Some text → py_float text = Some price →
         edi_spec_segment py_float st ("CTP" :: rest)
         = EdiState (products_data st)
                    (<["price" := VFloat price]> (current_product st)))
    ∧ (∀ st rest text,
         rest !! 2%nat = Some text → py_float text = None →
         edi_spec_segment py_float st ("CTP" :: rest) = st)
    ∧ (∀ st segment_id rest,
         segment_id ∉ ["LIN"; "PID"; "CTP"] →
         edi_spec_segment py_float st (segment_id :: rest) = st)
    ∧ (∀ st,
         (current_product st ≠ ∅ →
          flush_product st = products_data st ++ [current_product st])
         ∧ (current_product st = ∅ → flush_product st = products_data st)).
Proof.
  intros py_float.
  assert (∀ edi_data,
       edi_products py_float edi_data
       = edi_spec_products py_float (split "*" <$> split "~" edi_data)) as Hspec.
  { intros edi_data. unfold edi_products, edi_spec_products.
    by rewrite edi_fold_spec. }
  split_and!.
  - exact Hspec.
  - intros sep s. split; [apply join_split|apply split_parts_no_sep].
  - intros segments Hne Hall. rewrite Hspec. f_equal.
    rewrite split_join.
    + rewrite <- list_fmap_compose.
      rewrite <- (list_fmap_id segments) at 2.
      apply Forall_fmap_ext. eapply Forall_impl; [exact Hall|].
      intros elements [Hel Hall']. simpl. apply split_join; [done|].
      eapply Forall_impl; [exact Hall'|]. by intros e [He _].
    + by destruct segments.
    + apply Forall_fmap. eapply Forall_impl; [exact Hall|].
      intros elements [_ Hall']. simpl.
      apply contains_char_join; [done|].
      eapply Forall_impl; [exact Hall'|]. by intros e [_ He].
  - done.
  - intros st rest name Hname. simpl. by rewrite Hname.
  - intros st rest text price Htext Hprice. simpl. by rewrite Htext; simpl; rewrite Hprice.
  - intros st rest text Htext Hprice. simpl. by rewrite Htext; simpl; rewrite Hprice.
  - intros st segment_id rest Hid. simpl.
    repeat case_decide; subst; try done; exfalso; apply Hid;
      repeat first [ by apply list_elem_of_here | apply list_elem_of_further ].
  - intros st. unfold flush_product. split; intros Hcur; by case_decide.
Qed.

(** ** SFTP reader: temporary files *)

Section SftpFacts.
Context {S : Type} `{CatalogStore S}.
Context (repr_item : record → string).
Context (read_csv read_excel read_json read_xml : string → result (list record)).
Context (ftp_nlst : string → Z → string → string → string → result (list string)).
Context (open_wb : string → result unit) (ftp_retrbinary : string → result unit).

(** When the transfer of the first matching file fails after its local
    file has been opened, the reader reports the failure and returns with
    the local file still there. *)
Lemma sftp_failed_download_leaves_temp_file sftp_config vendor_id
    (mapping : option field_mapping) (w : world S) names file rest e :
  ftp_nlst (default "" (sftp_host sftp_config)) (default 22%Z (sftp_port sftp_config))
           (default "" (sftp_username sftp_config))
           (default "" (sftp_password sftp_config))
           (default "/" (sftp_directory sftp_config)) = Ok names →
  filter (λ f, _matches_pattern f (default "*" (sftp_file_pattern sftp_config)) = true)
         names = file :: rest →
  open_wb ("temp_" +:+ file) = Ok tt →
  ftp_retrbinary ("RETR " +:+ file) = Raise e →
  ∃ msg,
    import_from_sftp repr_item read_csv read_excel read_json read_xml
      ftp_nlst open_wb ftp_retrbinary sftp_config vendor_id mapping w
    = (World (w_store w) (w_files w ∪ {["temp_" +:+ file]}), Ok (0%nat, [msg])).
Proof.
  intros Hlist Hfiles Hopen Hretr.
  assert (import_from_sftp_body repr_item read_csv read_excel read_json read_xml
            ftp_nlst open_wb ftp_retrbinary sftp_config vendor_id mapping w
          = (World (w_store w) (w_files w ∪ {["temp_" +:+ file]}), Raise e)) as Hbody.
  { unfold import_from_sftp_body, bind, lift. rewrite Hlist, Hfiles.
    rewrite decide_False by done. simpl.
    unfold sftp_import_one, bind, lift, create_file. by rewrite Hopen, Hretr. }
  destruct (try_except_errors_as_data
              (import_from_sftp_body repr_item read_csv read_excel read_json read_xml
                 ftp_nlst open_wb ftp_retrbinary sftp_config vendor_id mapping)
              [ (ExceptFtpAllErrors, λ e, ret (0%nat, ["SFTP error: " +:+ exn_msg e]));
                (ExceptException,
                 λ e, ret (0%nat, ["Unexpected error during SFTP import: "
                                   +:+ exn_msg e])) ]) with w as [_ Hraise];
    [catch_all_present|handlers_return|].
  exact (Hraise _ _ Hbody).
Qed.

Lemma file_reader_body_files read file_path vendor_id
    (mapping : option field_mapping) (w w' : world S) x :
  file_reader_body repr_item read file_path vendor_id mapping w = (w', x) →
  w_files w' = w_files w.
Proof.
  unfold file_reader_body, bind, lift, run_process_mapped_data.
  destruct (read file_path) as [data|e]; [|by intros [= <- _]].
  destruct (_process_mapped_data _ _ _ _ _) as [[st' r]|e]; by intros [= <- _].
Qed.

Lemma try_except_files (body : M S (nat * list string)) handlers (w w' : world S) x :
  Forall (λ ch : except_clause * (exn → M S (nat * list string)),
            ∀ e, ∃ msg, ch.2 e = ret (0%nat, [msg])) handlers →
  (∀ w1 y, body w = (w1, y) → w_files w1 = w_files w) →
  try_except body handlers w = (w', x) → w_files w' = w_files w.
Proof.
  intros Hret Hbody. unfold try_except.
  destruct (body w) as [w1 [r|e]] eqn:Hb.
  - intros [= <- _]. by eapply Hbody.
  - destruct (find_handler handlers (exn_cls e)) as [h|] eqn:Hfind.
    + assert (∃ msg, h e = ret (0%nat, [msg])) as [msg ->].
      { clear -Hret Hfind. induction Hret as [|[clause h'] l Hh _ IH]; [done|].
        simpl in Hfind. destruct (catches clause (exn_cls e)); [|by apply IH].
        injection Hfind as <-. apply Hh. }
      intros [= <- _]. by eapply Hbody.
    + intros [= <- _]. by eapply Hbody.
Qed.

Lemma import_from_file_files file_path vendor_id (mapping : option field_mapping)
    (w w' : world S) x :
  import_from_file repr_item read_csv read_excel read_json read_xml
    file_path vendor_id mapping w = (w', x) →
  w_files w' = w_files w.
Proof.
  unfold import_from_file. repeat case_decide.
  - apply try_except_files; [handlers_return|]. apply file_reader_body_files.
  - apply try_except_files; [handlers_return|]. apply file_reader_body_files.
  - apply try_except_files; [handlers_return|]. apply file_reader_body_files.
  - apply try_except_files; [handlers_return|]. apply file_reader_body_files.
  - by intros [= <- _].
Qed.

(** When the transfer succeeds the local file is removed, whether or not
    the import of its content reported errors. *)
Lemma sftp_import_one_cleans_up file vendor_id (mapping : option field_mapping)
    (w : world S) :
  open_wb ("temp_" +:+ file) = Ok tt →
  ftp_retrbinary ("RETR " +:+ file) = Ok tt →
  ∃ st' r,
    sftp_import_one repr_item read_csv read_excel read_json read_xml
      open_wb ftp_retrbinary file vendor_id mapping w
    = (World st' (w_files w ∖ {["temp_" +:+ file]}), Ok r).
Proof.
  intros Hopen Hretr.
  unfold sftp_import_one, bind, lift, create_file. rewrite Hopen, Hretr.
  set (w1 := World (w_store w) (w_files w ∪ {["temp_" +:+ file]})).
  destruct (import_from_file_returns repr_item read_csv read_excel read_json read_xml
              ("temp_" +:+ file) vendor_id mapping w1) as (w2 & r & Himp).
  rewrite Himp. apply import_from_file_files in Himp.
  unfold os_remove, ret. rewrite Himp. simpl.
  rewrite decide_True by (apply elem_of_union; right; by apply elem_of_singleton).
  exists (w_store w2), r. do 2 f_equal.
  apply set_eq. intros f. rewrite !elem_of_difference, elem_of_union. tauto.
Qed.

End SftpFacts.

(** ** Bulk path *)

Section BulkFacts.
Context (str_value : value → string).
Context (sqlite_text : value → string) (sqlite_numeric : affinity → value → value).

Lemma extra_props_lookup product k v :
  product !! k = Some v → k ∉ bulk_columns → extra_props product !! k = Some v.
Proof. intros Hk Hcol. unfold extra_props. by apply map_lookup_filter_Some. Qed.

Lemma bulk_values_props vendor_id product k v :
  product !! k = Some v → k ∉ bulk_columns →
  ∃ props, vp_props (bulk_values str_value vendor_id product) = Some props
           ∧ props !! k = Some v.
Proof.
  intros Hk Hcol. pose proof (extra_props_lookup product k v Hk Hcol) as Hp.
  exists (extra_props product). split; [|done]. simpl.
  case_decide as Hempty; [|done]. by rewrite Hempty, lookup_empty in Hp.
Qed.

(** Enough fuel: the batches are the list, cut in pieces. *)
Lemma batches_concat fuel batch_size (products_data : list record) :
  0 < batch_size → length products_data ≤ fuel →
  concat (batches fuel batch_size products_data) = products_data.
Proof.
  intros Hsize. revert products_data.
  induction fuel as [|fuel IH]; intros products_data Hlen.
  - by destruct products_data; [|simpl in Hlen; lia].
  - destruct products_data as [|p l]; [done|].
    cbn [batches concat]. rewrite IH.
    + apply take_drop.
    + rewrite length_drop. simpl in *. lia.
Qed.

(** When every tuple can be bound the statement writes them all. *)
Lemma executemany_bindable table values :
  Forall (λ row, row_bindable row = true) values →
  executemany sqlite_text sqlite_numeric table values
  = Ok (fold_left (insert_or_replace sqlite_text sqlite_numeric) values table).
Proof.
  intros Hall. revert table.
  induction Hall as [|row rest Hrow _ IH]; intros table; simpl; [done|].
  rewrite Hrow. apply IH.
Qed.

Lemma executemany_raises table values e :
  executemany sqlite_text sqlite_numeric table values = Raise e →
  e = overflow_error.
Proof.
  revert table. induction values as [|row rest IH]; intros table; simpl; [done|].
  destruct (row_bindable row); [apply IH|]. by intros [= <-].
Qed.

Lemma executemany_overflow table values :
  Exists (λ row, row_bindable row = false) values →
  executemany sqlite_text sqlite_numeric table values = Raise overflow_error.
Proof.
  intros Hex. revert table.
  induction Hex as [row rest Hrow|row rest _ IH]; intros table; simpl.
  - by rewrite Hrow.
  - destruct (row_bindable row); [apply IH|done].
Qed.

Lemma bulk_values_bindable vendor_id (batch : list record) :
  Forall (λ p, row_bindable (bulk_values str_value vendor_id p) = true) batch →
  Forall (λ row, row_bindable row = true) (map (bulk_values str_value vendor_id) batch).
Proof. induction 1; simpl; by constructor. Qed.

Lemma bulk_values_unbindable vendor_id (batch : list record) :
  Exists (λ p, row_bindable (bulk_values str_value vendor_id p) = false) batch →
  Exists (λ row, row_bindable row = false) (map (bulk_values str_value vendor_id) batch).
Proof. induction 1; simpl; [by left|by right]. Qed.

Lemma insert_batches_bindable vendor_id batch_list table n :
  Forall (λ p, row_bindable (bulk_values str_value vendor_id p) = true)
         (concat batch_list) →
  insert_batches str_value sqlite_text sqlite_numeric vendor_id batch_list table n
  = Ok (fold_left (insert_or_replace sqlite_text sqlite_numeric)
          (map (bulk_values str_value vendor_id) (concat batch_list)) table,
        n + length (concat batch_list)).
Proof.
  revert table n. induction batch_list as [|batch l IH]; intros table n Hall.
  - simpl. by rewrite Nat.add_0_r.
  - simpl in *. apply Forall_app in Hall as [Hbatch Hrest].
    rewrite executemany_bindable by by apply bulk_values_bindable.
    rewrite IH by done. rewrite map_app, fold_left_app, length_app.
    do 2 f_equal. lia.
Qed.

Lemma insert_batches_overflow vendor_id batch_list table n :
  Exists (λ p, row_bindable (bulk_values str_value vendor_id p) = false)
         (concat batch_list) →
  insert_batches str_value sqlite_text sqlite_numeric vendor_id batch_list table n
  = Raise overflow_error.
Proof.
  revert table n. induction batch_list as [|batch l IH]; intros table n Hex.
  - by apply Exists_nil in Hex.
  - simpl in *. apply Exists_app in Hex.
    destruct (executemany sqlite_text sqlite_numeric table
                (map (bulk_values str_value vendor_id) batch)) as [table'|e] eqn:Hrun.
    + destruct Hex as [Hex|Hex]; [|by apply IH].
      by rewrite executemany_overflow in Hrun by by apply bulk_values_unbindable.
    + by apply executemany_raises in Hrun as ->.
Qed.

(** With a positive batch size the batching is invisible: when every
    tuple can be bound, every tuple is written, in order. *)
Lemma bulk_insert_bindable vendor_id products_data batch_size table :
  (0 < batch_size)%Z →
  Forall (λ p, row_bindable (bulk_values str_value vendor_id p) = true) products_data →
  bulk_insert str_value sqlite_text sqlite_numeric vendor_id products_data
    batch_size table
  = (fold_left (insert_or_replace sqlite_text sqlite_numeric)
       (map (bulk_values str_value vendor_id) products_data) table,
     Ok (length products_data)).
Proof.
  intros Hsize Hall. unfold bulk_insert.
  case_decide as Hempty; [by subst|].
  rewrite decide_False by lia. rewrite decide_False by lia.
  rewrite insert_batches_bindable; by rewrite batches_concat by lia.
Qed.

(** When a tuple cannot be bound the call raises and commits nothing. *)
Lemma bulk_insert_overflow vendor_id products_data batch_size table :
  (0 < batch_size)%Z →
  Exists (λ p, row_bindable (bulk_values str_value vendor_id p) = false) products_data →
  bulk_insert str_value sqlite_text sqlite_numeric vendor_id products_data
    batch_size table
  = (table, Raise overflow_error).
Proof.
  intros Hsize Hex. unfold bulk_insert.
  rewrite decide_False by (intros ->; by apply Exists_nil in Hex).
  rewrite decide_False by lia. rewrite decide_False by lia.
  by rewrite insert_batches_overflow by by rewrite batches_concat by lia.
Qed.

Lemma insert_or_replace_row table row :
  insert_or_replace sqlite_text sqlite_numeric table row !! fresh (dom table)
  = Some (stored_row sqlite_text sqlite_numeric row).
Proof. unfold insert_or_replace. by rewrite lookup_insert_eq. Qed.

End BulkFacts.

(** C4, as amended: the per-record pipeline hands to the store the
    canonical record and nothing else; its keys are destination fields of
    the mapping or [vendor_id], and each value under a destination field is
    the value the raw record holds under one of that field's aliases, so a
    source field that is no alias is not carried over.  The bulk path is
    the one that keeps extra fields: every key of a product dictionary
    outside the fifteen column keys is held, with its value, in the
    [props] of the tuple built for that product.  With a positive batch
    size, when every value to bind is within the range of a signed 64-bit
    integer, every tuple is written, in order, and the call returns their
    number; when one is not, the call raises and commits nothing.  A
    tuple written is found under the identity generated for it, as the
    database stores it, and its [props] are those of the tuple. *)
Theorem C4_extra_fields_kept_by_bulk_path_only :
  (∀ vendor_id (mapping : field_mapping) (item : record) k,
     is_Some (canonical_record vendor_id mapping item !! k) →
     k = "vendor_id" ∨ is_Some (mapping !! k))
  ∧ (∀ vendor_id (mapping : field_mapping) (item : record) k v,
       k ≠ "vendor_id" →
       canonical_record vendor_id mapping item !! k = Some v →
       ∃ a, a ∈ source_fields_of mapping k ∧ item !! a = Some v)
  ∧ (∀ (S : Type) (HS : CatalogStore S) (repr_item : record → string)
       vendor_id (mapping : field_mapping) (st st' : S) (item : record),
       process_item repr_item vendor_id mapping st item = (st', Imported) →
       (∃ id, ProductController_update st id (canonical_record vendor_id mapping item)
              = Ok st')
       ∨ ProductController_create st (canonical_record vendor_id mapping item) = Ok st')
  ∧ (∀ (str_value : value → string) vendor_id (product : record) k v,
       product !! k = Some v → k ∉ bulk_columns →
       ∃ props,
         vp_props (bulk_values str_value vendor_id product) = Some props
         ∧ props !! k = Some v)
  ∧ (∀ (str_value sqlite_text : value → string)
       (sqlite_numeric : affinity → value → value)
       vendor_id products_data batch_size table,
       (0 < batch_size)%Z →
       (Forall (λ p, row_bindable (bulk_values str_value vendor_id p) = true)
               products_data →
        bulk_insert str_value sqlite_text sqlite_numeric vendor_id products_data
          batch_size table
        = (fold_left (insert_or_replace sqlite_text sqlite_numeric)
             (map (bulk_values str_value vendor_id) products_data) table,
           Ok (length products_data)))
       ∧ (Exists (λ p, row_bindable (bulk_values str_value vendor_id p) = false)
                 products_data →
          bulk_insert str_value sqlite_text sqlite_numeric vendor_id products_data
            batch_size table
          = (table, Raise overflow_error)))
  ∧ (∀ (sqlite_text : value → string) (sqlite_numeric : affinity → value → value)
       table row,
       insert_or_replace sqlite_text sqlite_numeric table row !! fresh (dom table)
       = Some (stored_row sqlite_text sqlite_numeric row)
       ∧ vp_props (stored_row sqlite_text sqlite_numeric row) = vp_props row).
Proof.
  split_and!.
  - apply canonical_record_keys.
  - intros vendor_id mapping item k v Hk Hv.
    rewrite canonical_record_other, apply_mapping_lookup in Hv by done.
    unfold source_fields_of.
    destruct (mapping !! k) as [l|]; simpl in *; [|done].
    destruct (first_source_value_found _ _ _ Hv) as (pre & a & post & -> & Ha & _).
    exists a. split; [|done]. apply elem_of_app. right. by left.
  - intros S HS repr_item vendor_id mapping st st' item.
    unfold process_item. fold (canonical_record vendor_id mapping item).
    repeat case_match; intros [= <-]; subst; eauto.
  - intros str_value. apply bulk_values_props.
  - intros str_value sqlite_text sqlite_numeric vendor_id products_data
      batch_size table Hsize.
    split; [by apply bulk_insert_bindable|by apply bulk_insert_overflow].
  - intros sqlite_text sqlite_numeric table row.
    split; [apply insert_or_replace_row|done].
Qed.

(** * Worked inputs, checked *)

Lemma example_catalog_unique : natural_key_unique example_catalog.
Proof.
  intros id1 id2 row1 row2 vendor_id sku Hrow1 Hrow2 _ _. simpl in *.
  apply lookup_singleton_Some in Hrow1 as [<- _].
  by apply lookup_singleton_Some in Hrow2 as [<- _].
Qed.

(** The record for SKU A1 lands on row 0, which the vendor keeps as its
    only row. *)
Lemma C1_upsert_by_natural_key_witness :
  process_item example_repr 1 default_mapping example_catalog example_item
  = (Catalog (cat_vendors example_catalog)
             (<[0%nat := canonical_record 1 default_mapping example_item ∪ example_row]>
                (cat_products example_catalog)),
     Imported)
  ∧ dom (cat_products
           (process_item example_repr 1 default_mapping example_catalog example_item).1)
    = dom (cat_products example_catalog)
  ∧ vendor_row_count
      (process_item example_repr 1 default_mapping example_catalog example_item).1 1
    = vendor_row_count example_catalog 1.
Proof.
  apply (C1_upsert_by_natural_key example_repr example_catalog 1 default_mapping
           example_item (VStr "A1") (VStr "Widget v2")).
  - exact example_catalog_unique.
  - by vm_compute.
  - by vm_compute.
  - by vm_compute.
  - split; by vm_compute.
Defined.

(** A record without any SKU alias is turned away. *)
Lemma C2_missing_required_field_rejected_witness :
  process_item example_repr 1 default_mapping example_catalog
    {[ "name" := VStr "Widget" ]}
  = (example_catalog,
     Failed (missing_field_error example_repr "sku" {[ "name" := VStr "Widget" ]})).
Proof.
  apply (C2_missing_required_field_rejected example_repr 1 default_mapping
           {[ "name" := VStr "Widget" ]} [] example_catalog 0 []).
  compute_done.
Defined.


(** The column [qtynj] of the record is no alias of the default mapping,
    and its value is nowhere in the record handed to the store: the claim
    that every unmapped source field is carried over fails. *)
Lemma C4_unmapped_field_dropped :
  ¬ (∀ (item : record) (k : string) (v : value),
       item !! k = Some v → ¬ is_alias default_mapping k →
       ∃ k', canonical_record 1 default_mapping item !! k' = Some v).
Proof.
  intros Hclaim.
  destruct (Hclaim example_item "qtynj" (VStr "7")) as [k' Hk'].
  - by vm_compute.
  - intros (target & source_fields & Hm & Hin).
    assert (map_Forall (λ _ l, "qtynj" ∉ l) default_mapping) as Hall by compute_done.
    by apply (Hall target source_fields Hm).
  - assert (map_Forall (λ _ x, x ≠ VStr "7")
                       (canonical_record 1 default_mapping example_item)) as Hall by compute_done.
    by apply (Hall k' (VStr "7") Hk').
Qed.

(** The bulk path has no column for [name] and keeps it in [props]. *)
Lemma C4_extra_fields_kept_by_bulk_path_only_witness :
  ∃ props,
    vp_props (bulk_values (λ _, "") 1%Z example_item) = Some props
    ∧ props !! "name" = Some (VStr "Widget v2").
Proof.
  apply (proj1 (proj2 (proj2 (proj2 C4_extra_fields_kept_by_bulk_path_only)))
           (λ _, "") 1%Z example_item "name" (VStr "Widget v2")).
  - by vm_compute.
  - compute_done.
Defined.

(** A file with an extension the dispatcher does not know. *)
Lemma C6_readers_contain_failures_witness :
  import_from_file example_repr no_file no_file no_file no_file "feed.txt" 1%Z None
    (World example_catalog ∅)
  = (World example_catalog ∅, Ok (0, ["Unsupported file format: .txt"])).
Proof.
  apply (C6_readers_contain_failures example_repr example_float
           no_file no_file no_file no_file
           (λ _ _ _ _ _, Ok []) example_nlst open_ok retr_fails
           "feed.txt" 1%Z None
           (ApiConfig None None None None None None None None) example_sftp "").
  compute_done.
Defined.

(** Four segments, two products. *)
Lemma C7_edi_reader_witness :
  edi_products example_float (join "~" (join "*" <$> example_edi))
  = edi_spec_products example_float example_edi.
Proof.
  apply (proj1 (proj2 (proj2 (C7_edi_reader example_float))) example_edi).
  - done.
  - compute_done.
Defined.

(** C8, at the failing input: one matching file, [a.csv], whose transfer
    breaks off after [temp_a.csv] has been opened.  The reader returns the
    SFTP error, and [temp_a.csv], which did not exist before, is still in
    the working directory: the clean-up of line 168 was never reached. *)
Theorem C8_temp_file_left_after_failed_download :
  import_from_sftp example_repr no_file no_file no_file no_file
    example_nlst open_ok retr_fails example_sftp 1%Z None (World example_catalog ∅)
  = (World example_catalog {[ "temp_a.csv" ]},
     Ok (0, ["SFTP error: 426 Connection closed; transfer aborted"])).
Proof. by vm_compute. Qed.

(** A price of zero gives way to the cost. *)
Lemma C9_falsy_is_absent_witness :
  apply_mapping (effective_mapping None)
    {[ "price" := VInt 0; "cost" := VStr "3.5" ]} !! "price"
  = Some (VStr "3.5").
Proof.
  apply (proj1 (proj2 (proj2 (proj2
           (C9_falsy_is_absent (S := catalog) example_repr))))
           {[ "price" := VInt 0; "cost" := VStr "3.5" ]} (VInt 0) (VStr "3.5")).
  - by vm_compute.
  - by left.
  - by vm_compute.
  - done.
Defined.

(** Vendor 2 does not exist. *)
Lemma C10_missing_vendor_aborts_batch_witness :
  _process_mapped_data example_repr [example_item; example_item] 2 None example_catalog
  = Ok (example_catalog, (0, ["Vendor with ID 2 not found"])).
Proof.
  apply (C10_missing_vendor_aborts_batch example_repr
           [example_item; example_item] 2 None example_catalog).
  by vm_compute.
Defined.

(** * Further properties *)

(** ** Strings *)

Section MoreStringFacts.
Implicit Types (s t p : string).

Lemma string_app_nil_r s : s +:+ "" = s.
Proof.
  induction s as [|c s IH]; [done|].
  change (String c s +:+ "") with (String c (s +:+ "")). by rewrite IH.
Qed.

Lemma string_app_assoc s t p : (s +:+ t) +:+ p = s +:+ (t +:+ p).
Proof.
  induction s as [|c s IH]; [done|].
  change (String c ((s +:+ t) +:+ p) = String c (s +:+ (t +:+ p))). by rewrite IH.
Qed.

Lemma string_prefix_iff p s : String.prefix p s = true ↔ ∃ t, s = p +:+ t.
Proof.
  revert s. induction p as [|c p IH]; intros s.
  - split; [by exists s|by destruct s].
  - destruct s as [|c' s]; simpl.
    + split; [done|by intros [t Ht]].
    + destruct (ascii_dec c c') as [->|Hne].
      * rewrite IH. split; intros [t Ht]; exists t.
        -- by rewrite Ht.
        -- by injection Ht.
      * split; [done|]. intros [t Ht]. injection Ht as Hc _. by destruct Hne.
Qed.

Lemma string_rev_app_spec s t : String.rev_app s t = String.rev s +:+ t.
Proof.
  revert t. induction s as [|c s IH]; intros t; [done|].
  unfold String.rev. simpl. rewrite (IH (String c t)), (IH (String c "")).
  by rewrite string_app_assoc.
Qed.

Lemma string_rev_cons c s : String.rev (String c s) = String.rev s +:+ String c "".
Proof. unfold String.rev at 1. simpl. apply string_rev_app_spec. Qed.

Lemma string_rev_append s t : String.rev (s +:+ t) = String.rev t +:+ String.rev s.
Proof.
  induction s as [|c s IH]; [by rewrite string_app_nil_r|].
  change (String c s +:+ t) with (String c (s +:+ t)).
  by rewrite !string_rev_cons, IH, string_app_assoc.
Qed.

Lemma string_rev_involutive s : String.rev (String.rev s) = s.
Proof.
  induction s as [|c s IH]; [done|].
  by rewrite string_rev_cons, string_rev_append, IH.
Qed.

Lemma endswith_iff s p : endswith s p = true ↔ ∃ t, s = t +:+ p.
Proof.
  unfold endswith. rewrite string_prefix_iff. split.
  - intros [u Hu]. exists (String.rev u).
    by rewrite <- (string_rev_involutive s), Hu, string_rev_append, string_rev_involutive.
  - intros [t ->]. exists (String.rev t). apply string_rev_append.
Qed.

Lemma contains_cons c s p :
  contains (String c s) p = String.prefix p (String c s) || contains s p.
Proof.
  unfold contains. cbn [String.index].
  destruct (String.prefix p (String c s)); [done|].
  by destruct (String.index 0 p s).
Qed.

Lemma contains_iff s p : contains s p = true ↔ ∃ a b, s = a +:+ p +:+ b.
Proof.
  induction s as [|c s IH].
  - unfold contains. simpl. destruct p as [|c' p].
    + split; [by exists "", ""|done].
    + split; [done|]. intros (a & b & Hab). by destruct a.
  - rewrite contains_cons, orb_true_iff, string_prefix_iff, IH. split.
    + intros [[t Ht]|(a & b & Hab)].
      * by exists "", t.
      * exists (String c a), b. by rewrite Hab.
    + intros (a & b & Hab). destruct a as [|c' a].
      * left. by exists b.
      * right. exists a, b. by injection Hab.
Qed.

Lemma drop_last_snoc s c : drop_last (s +:+ String c "") = s.
Proof.
  unfold drop_last. rewrite string_rev_append. simpl. apply string_rev_involutive.
Qed.

Lemma endswith_snoc s c : endswith (s +:+ String c "") (String c "") = true.
Proof. apply endswith_iff. by exists s. Qed.

Lemma endswith_cons c s d :
  s ≠ "" → endswith (String c s) (String d "") = endswith s (String d "").
Proof.
  intros Hs. apply eq_true_iff_eq. rewrite !endswith_iff. split.
  - intros [[|c' t] Ht].
    + injection Ht as _ Hs'. by destruct Hs.
    + injection Ht as _ Hs'. by exists t.
  - intros [t ->]. by exists (String c t).
Qed.

Lemma startswith_star_cons s : startswith (String "*" s) "*" = true.
Proof. apply string_prefix_iff. by exists s. Qed.

End MoreStringFacts.

(** ** File name patterns *)

(** X1: a star is a wildcard at either end of the pattern.  The pattern
    [*] matches every name; [*s] matches the names that end with [s];
    [p*] those that start with [p]; [*m*] those that contain [m]. *)
Theorem matches_pattern_wildcards :
  (∀ f, _matches_pattern f "*" = true)
  ∧ (∀ f s, s ≠ "" → endswith s "*" = false →
            (_matches_pattern f (String "*" s) = true ↔ ∃ t, f = t +:+ s))
  ∧ (∀ f p, startswith p "*" = false →
            (_matches_pattern f (p +:+ "*") = true ↔ ∃ t, f = p +:+ t))
  ∧ (∀ f m, _matches_pattern f (String "*" (m +:+ "*")) = true
            ↔ ∃ a b, f = a +:+ m +:+ b).
Proof.
  split_and!.
  - done.
  - intros f s Hs Hend. unfold _matches_pattern.
    rewrite decide_False by (intros [= ->]; done).
    rewrite startswith_star_cons, endswith_cons, Hend by done. simpl.
    apply endswith_iff.
  - intros f p Hstart. unfold _matches_pattern.
    destruct p as [|c p].
    + simpl. split; [by exists f|done].
    + rewrite decide_False by (by destruct p).
      assert (startswith (String c p +:+ "*") "*" = false) as ->.
      { apply not_true_is_false. intros [t Ht]%string_prefix_iff.
        apply not_true_iff_false in Hstart. apply Hstart, string_prefix_iff.
        injection Ht as ->. by exists p. }
      rewrite endswith_snoc, drop_last_snoc. simpl. apply string_prefix_iff.
  - intros f m. unfold _matches_pattern.
    rewrite decide_False by (by destruct m).
    rewrite startswith_star_cons.
    change (String "*" (m +:+ "*")) with (String "*" m +:+ "*") at 1.
    rewrite endswith_snoc. cbn [drop_first andb].
    rewrite drop_last_snoc. apply contains_iff.
Qed.

(** X2: a star anywhere else is an ordinary character.  A pattern that
    neither starts nor ends with a star matches its own text only. *)
Theorem matches_pattern_literal :
  ∀ f pattern,
    startswith pattern "*" = false → endswith pattern "*" = false →
    (_matches_pattern f pattern = true ↔ f = pattern).
Proof.
  intros f pattern Hstart Hend. unfold _matches_pattern.
  rewrite decide_False by (by intros ->).
  rewrite Hstart, Hend. simpl. apply bool_decide_eq_true.
Qed.

Lemma matches_pattern_literal_witness :
  _matches_pattern "a-b.csv" "a*b.csv" = true ↔ "a-b.csv" = "a*b.csv".
Proof. apply (matches_pattern_literal "a-b.csv" "a*b.csv"); by vm_compute. Defined.

(** ** API reader: response helpers *)

Section ApiHelperFacts.
Implicit Types (data current : json) (keys parts : list string).

Lemma json_contains_obj key members :
  json_contains key (JObj members) = Ok (bool_decide (is_Some (members !! key))).
Proof. done. Qed.

Lemma extract_items_walk_path keys data v :
  json_path keys data = Some v →
  extract_items_walk keys data = Ok (json_as_list v).
Proof.
  revert data. induction keys as [|key rest IH]; intros data; simpl.
  - by intros [= ->].
  - destruct data as [| | | | | |members]; try done. simpl.
    destruct (members !! key) as [x|] eqn:Hkey; [|done].
    intros Hrest. rewrite bool_decide_eq_true_2 by by eexists.
    by apply IH.
Qed.

Lemma extract_items_walk_missing pre key post data members :
  json_path pre data = Some (JObj members) → members !! key = None →
  extract_items_walk (pre ++ key :: post) data = Ok [].
Proof.
  revert data. induction pre as [|k pre IH]; intros data; simpl.
  - intros [= ->] Hkey. simpl. rewrite Hkey.
    by rewrite bool_decide_eq_false_2 by by intros [? ?].
  - destruct data as [| | | | | |m]; try done. simpl.
    destruct (m !! k) as [x|] eqn:Hk; [|done].
    intros Hpre Hkey. rewrite bool_decide_eq_true_2 by by eexists.
    by apply IH.
Qed.

Lemma extract_items_walk_scalar pre key post data x :
  json_path pre data = Some x → json_scalar x →
  ∃ e, extract_items_walk (pre ++ key :: post) data = Raise e.
Proof.
  revert data. induction pre as [|k pre IH]; intros data; simpl.
  - intros [= ->] Hx. destruct x; try done; by eexists.
  - destruct data as [| | | | | |m]; try done. simpl.
    destruct (m !! k) as [y|] eqn:Hk; [|done].
    intros Hpre Hx. rewrite bool_decide_eq_true_2 by by eexists.
    by apply IH.
Qed.

(** Walking all the parts, or all but the last and then testing the last,
    comes to the same place. *)
Lemma has_next_walk_iff parts data :
  parts ≠ [] →
  walk_parts (removelast parts) data false (last_part_set (List.last parts "")) = Ok true
  ↔ ∃ url, json_path parts data = Some url ∧ url ≠ JNull.
Proof.
  revert data. induction parts as [|x rest IH]; intros data Hne; [done|].
  destruct rest as [|y rest].
  - simpl. unfold last_part_set.
    destruct data as [|b|n|f|s|items|m]; simpl;
      try (split; [done|by intros (? & ? & ?)]).
    + destruct (contains s x); (split; [done|by intros (? & ? & ?)]).
    + destruct (existsb (json_is_str x) items);
        (split; [done|by intros (? & ? & ?)]).
    + destruct (m !! x) as [v|] eqn:Hx.
      * rewrite bool_decide_eq_true_2 by by eexists.
        destruct v;
          (split; [intros Heq; try discriminate Heq; by eexists
                  |intros (? & [= <-] & ?); done]).
      * rewrite bool_decide_eq_false_2 by by intros [? ?].
        split; [done|by intros (? & ? & ?)].
  - change (removelast (x :: y :: rest)) with (x :: removelast (y :: rest)).
    change (List.last (x :: y :: rest) "") with (List.last (y :: rest) "").
    cbn [walk_parts json_path].
    destruct data as [|b|n|f|s|items|m]; simpl;
      try (split; [done|by intros (? & ? & ?)]).
    + destruct (contains s x); (split; [done|by intros (? & ? & ?)]).
    + destruct (existsb (json_is_str x) items);
        (split; [done|by intros (? & ? & ?)]).
    + destruct (m !! x) as [v|] eqn:Hx.
      * rewrite bool_decide_eq_true_2 by by eexists. by apply IH.
      * rewrite bool_decide_eq_false_2 by by intros [? ?].
        split; [done|by intros (? & ? & ?)].
Qed.

Lemma walk_parts_path parts data url :
  json_path parts data = Some url →
  walk_parts parts data (JStr "") Ok = Ok url.
Proof.
  revert data. induction parts as [|x rest IH]; intros data; simpl.
  - by intros [= ->].
  - destruct data as [| | | | | |m]; try done. simpl.
    destruct (m !! x) as [v|] eqn:Hx; [|done].
    intros Hrest. rewrite bool_decide_eq_true_2 by by eexists.
    by apply IH.
Qed.

Lemma has_next_page_iff data next_page_path :
  next_page_path ≠ "" →
  _has_next_page data next_page_path = Ok true
  ↔ ∃ url, json_path (split "." next_page_path) data = Some url ∧ url ≠ JNull.
Proof.
  intros Hne. unfold _has_next_page. rewrite decide_False by done.
  apply has_next_walk_iff, split_nonempty.
Qed.

Lemma has_next_page_url data next_page_path :
  _has_next_page data next_page_path = Ok true →
  ∃ url, _get_next_page_url data next_page_path = Ok url ∧ url ≠ JNull
         ∧ json_path (split "." next_page_path) data = Some url.
Proof.
  intros Hnext.
  assert (next_page_path ≠ "") as Hne.
  { intros ->. by vm_compute in Hnext. }
  apply has_next_page_iff in Hnext as (url & Hpath & Hurl); [|done].
  exists url. split_and!; [|done..].
  unfold _get_next_page_url. rewrite decide_False by done.
  by apply walk_parts_path.
Qed.

End ApiHelperFacts.

(** X3: [_extract_items] follows the dotted path through nested objects.
    When the path leads to a value, the items are that value if it is a
    list and the one-element list of it otherwise; when an object on the
    way lacks the next key the result is the empty list; when the way
    leads into null, a boolean or a number the helper raises.  With the
    empty path the response itself is the value. *)
Theorem extract_items_by_path :
  ∀ data items_path,
    (items_path = "" → _extract_items data items_path = Ok (json_as_list data))
    ∧ (items_path ≠ "" →
       (∀ v, json_path (split "." items_path) data = Some v →
             _extract_items data items_path = Ok (json_as_list v))
       ∧ (∀ pre key post members,
            split "." items_path = pre ++ key :: post →
            json_path pre data = Some (JObj members) → members !! key = None →
            _extract_items data items_path = Ok [])
       ∧ (∀ pre key post x,
            split "." items_path = pre ++ key :: post →
            json_path pre data = Some x → json_scalar x →
            ∃ e, _extract_items data items_path = Raise e)).
Proof.
  intros data items_path. unfold _extract_items. split.
  - intros ->. done.
  - intros Hne. rewrite decide_False by done. split_and!.
    + apply extract_items_walk_path.
    + intros pre key post members ->. apply extract_items_walk_missing.
    + intros pre key post x ->. apply extract_items_walk_scalar.
Qed.

(** X4: the two pagination helpers agree.  For a non-empty path
    [_has_next_page] answers yes exactly when the path leads through
    nested objects to a value that is not null, and whenever it answers
    yes [_get_next_page_url] returns that very value.  With the empty path
    the answer is no. *)
Theorem next_page_helpers_agree :
  ∀ data next_page_path,
    (next_page_path = "" → _has_next_page data next_page_path = Ok false)
    ∧ (next_page_path ≠ "" →
       (_has_next_page data next_page_path = Ok true
        ↔ ∃ url, json_path (split "." next_page_path) data = Some url
                 ∧ url ≠ JNull))
    ∧ (_has_next_page data next_page_path = Ok true →
       ∃ url, _get_next_page_url data next_page_path = Ok url ∧ url ≠ JNull
              ∧ json_path (split "." next_page_path) data = Some url).
Proof.
  intros data next_page_path. split_and!.
  - by intros ->.
  - apply has_next_page_iff.
  - apply has_next_page_url.
Qed.

(** ** API reader: pagination *)

Lemma last_cons_default {A : Type} (x : A) (l : list A) (d : A) :
  List.last (x :: l) d = List.last l x.
Proof.
  revert x d. induction l as [|y l IH]; intros x d; [done|].
  change (List.last (x :: y :: l) d) with (List.last (y :: l) d).
  rewrite IH. symmetry. apply IH.
Qed.

Section PaginationFacts.
Context (http_get_json : json → result json).
Context (items_path next_page_path : string).

Lemma fetch_pages_links later data all_data requested itemss fuel :
  page_links http_get_json next_page_path data later →
  Forall2 (λ page items, _extract_items page items_path = Ok items) later itemss →
  ∃ urls,
    Forall2 (λ url page, http_get_json url = Ok page) urls later
    ∧ fetch_pages http_get_json items_path next_page_path (length later + fuel)
        data all_data requested
      = fetch_pages http_get_json items_path next_page_path fuel
          (List.last later data) (all_data ++ concat itemss) (requested ++ urls).
Proof.
  intros Hlinks Hitems. revert data all_data requested Hlinks.
  induction Hitems as [|next items later itemss Hnext _ IH];
    intros data all_data requested Hlinks.
  - exists []. split; [constructor|]. simpl. by rewrite !app_nil_r.
  - destruct Hlinks as (Hhas & (url & Hurl & Hget) & Hlinks).
    destruct (IH next (all_data ++ items) (requested ++ [url]) Hlinks)
      as (urls & Hurls & Hrun).
    exists (url :: urls). split; [by constructor|].
    cbn [length Nat.add fetch_pages]. rewrite Hhas, Hurl, Hget, Hnext, Hrun.
    f_equal.
    + symmetry. apply last_cons_default.
    + simpl. by rewrite <- app_assoc.
    + by rewrite <- app_assoc.
Qed.

Lemma page_chain_links later data :
  page_chain http_get_json next_page_path data later →
  page_links http_get_json next_page_path data later
  ∧ _has_next_page (List.last later data) next_page_path = Ok false.
Proof.
  revert data. induction later as [|next later IH]; intros data;
    cbn [page_chain page_links].
  - done.
  - intros (Hhas & Hurl & Hchain). destruct (IH next Hchain) as [Hlinks Hlast].
    split; [done|]. by rewrite last_cons_default.
Qed.

End PaginationFacts.

(** X5: pagination follows the chain of pages to its end.  When the first
    response and the pages after it each name the next and the last names
    none, the loop asks for exactly those pages, in order, and the items
    collected are those of the first response followed by those of each
    page; any fuel above the number of pages is enough.  Without
    pagination no further page is asked for. *)
Theorem pagination_collects_chain :
  ∀ (http_get_json : json → result json) items_path next_page_path
    first later items0 itemss fuel,
    _extract_items first items_path = Ok items0 →
    page_chain http_get_json next_page_path first later →
    Forall2 (λ page items, _extract_items page items_path = Ok items) later itemss →
    length later < fuel →
    (∃ urls,
       Forall2 (λ url page, http_get_json url = Ok page) urls later
       ∧ api_collect_items http_get_json items_path next_page_path fuel true first
         = Some (Ok (items0 ++ concat itemss, urls)))
    ∧ api_collect_items http_get_json items_path next_page_path fuel false first
      = Some (Ok (items0, [])).
Proof.
  intros http_get_json items_path next_page_path first later items0 itemss fuel
    Hfirst Hchain Hitems Hfuel.
  unfold api_collect_items. rewrite Hfirst. split; [|done].
  apply page_chain_links in Hchain as [Hlinks Hlast].
  destruct (fetch_pages_links http_get_json items_path next_page_path later first
              items0 [] itemss (fuel - length later) Hlinks Hitems)
    as (urls & Hurls & Hrun).
  exists urls. split; [done|].
  replace (length later + (fuel - length later)) with fuel in Hrun by lia.
  rewrite Hrun.
  destruct (fuel - length later) as [|rest] eqn:Hrest; [lia|].
  simpl. by rewrite Hlast.
Qed.

(** X6: the loop has no bound of its own.  A page whose next-page value
    leads back to the same page keeps the loop going for ever: whatever
    the fuel, it runs out. *)
Theorem pagination_self_link_never_ends :
  ∀ (http_get_json : json → result json) items_path next_page_path
    data url items,
    _has_next_page data next_page_path = Ok true →
    _get_next_page_url data next_page_path = Ok url →
    http_get_json url = Ok data →
    _extract_items data items_path = Ok items →
    ∀ fuel all_data requested,
      fetch_pages http_get_json items_path next_page_path fuel data all_data requested
      = None.
Proof.
  intros http_get_json items_path next_page_path data url items
    Hhas Hurl Hget Hitems fuel.
  induction fuel as [|fuel IH]; intros all_data requested; [done|].
  simpl. rewrite Hhas, Hurl, Hget, Hitems. apply IH.
Qed.

(** X7: a failure on a later page loses everything.  When the request for
    the page after a run of pages raises, the collection raises that
    exception: none of the items of the pages already read is returned. *)
Theorem pagination_failure_discards_items :
  ∀ (http_get_json : json → result json) items_path next_page_path
    first later items0 itemss url e fuel,
    _extract_items first items_path = Ok items0 →
    page_links http_get_json next_page_path first later →
    Forall2 (λ page items, _extract_items page items_path = Ok items) later itemss →
    _has_next_page (List.last later first) next_page_path = Ok true →
    _get_next_page_url (List.last later first) next_page_path = Ok url →
    http_get_json url = Raise e →
    length later < fuel →
    api_collect_items http_get_json items_path next_page_path fuel true first
    = Some (Raise e).
Proof.
  intros http_get_json items_path next_page_path first later items0 itemss url e fuel
    Hfirst Hlinks Hitems Hhas Hurl Hget Hfuel.
  unfold api_collect_items. rewrite Hfirst.
  destruct (fetch_pages_links http_get_json items_path next_page_path later first
              items0 [] itemss (fuel - length later) Hlinks Hitems)
    as (urls & Hurls & Hrun).
  replace (length later + (fuel - length later)) with fuel in Hrun by lia.
  rewrite Hrun.
  destruct (fuel - length later) as [|rest] eqn:Hrest; [lia|].
  simpl. by rewrite Hhas, Hurl, Hget.
Qed.

(** ** SFTP reader: whole runs *)

Section SftpRunFacts.
Context {S : Type} `{CatalogStore S}.
Context (repr_item : record → string).
Context (read_csv read_excel read_json read_xml : string → result (list record)).
Context (ftp_nlst : string → Z → string → string → string → result (list string)).
Context (open_wb : string → result unit) (ftp_retrbinary : string → result unit).

Lemma import_from_sftp_returns sftp_config vendor_id
    (mapping : option field_mapping) (w : world S) :
  ∃ w' r,
    import_from_sftp repr_item read_csv read_excel read_json read_xml
      ftp_nlst open_wb ftp_retrbinary sftp_config vendor_id mapping w
    = (w', Ok r).
Proof.
  unfold import_from_sftp.
  apply try_except_errors_as_data; [catch_all_present|handlers_return].
Qed.

(** The handler of the loop over the directories is never entered. *)
Lemma sftp_multi_step_spec config vendor_id (mapping : option field_mapping)
    total_imported all_errors (w : world S) :
  ∃ w' r,
    import_from_sftp repr_item read_csv read_excel read_json read_xml
      ftp_nlst open_wb ftp_retrbinary config vendor_id mapping w
    = (w', Ok r)
    ∧ sftp_multi_step repr_item read_csv read_excel read_json read_xml
        ftp_nlst open_wb ftp_retrbinary config vendor_id mapping
        total_imported all_errors w
      = (w', Ok (total_imported + r.1, all_errors ++ r.2)).
Proof.
  destruct (import_from_sftp_returns config vendor_id mapping w) as (w' & r & Hr).
  exists w', r. split; [done|].
  unfold sftp_multi_step. apply try_except_ok. unfold bind. by rewrite Hr.
Qed.

Lemma sftp_multi_loop_acc configs vendor_id (mapping : option field_mapping)
    total_imported all_errors (w : world S) :
  ∃ w' n errs,
    sftp_multi_loop repr_item read_csv read_excel read_json read_xml
      ftp_nlst open_wb ftp_retrbinary configs vendor_id mapping 0 [] w
    = (w', Ok (n, errs))
    ∧ sftp_multi_loop repr_item read_csv read_excel read_json read_xml
        ftp_nlst open_wb ftp_retrbinary configs vendor_id mapping
        total_imported all_errors w
      = (w', Ok (total_imported + n, all_errors ++ errs)).
Proof.
  revert total_imported all_errors w.
  induction configs as [|config rest IH]; intros total_imported all_errors w.
  - exists w, 0, []. split; [done|]. simpl. unfold ret.
    by rewrite Nat.add_0_r, app_nil_r.
  - cbn [sftp_multi_loop]. unfold bind.
    destruct (sftp_multi_step_spec config vendor_id mapping 0 [] w)
      as (w1 & r & Hr & ->).
    destruct (sftp_multi_step_spec config vendor_id mapping total_imported all_errors w)
      as (w1' & r' & Hr' & ->).
    assert (w1' = w1 ∧ r' = r) as [-> ->] by (split; congruence).
    cbn [fst snd].
    destruct (IH (0 + r.1) ([] ++ r.2) w1) as (w2 & n & errs & Hrun & ->).
    destruct (IH (total_imported + r.1) (all_errors ++ r.2) w1)
      as (w2' & n' & errs' & Hrun' & ->).
    assert (w2' = w2 ∧ n' = n ∧ errs' = errs) as (-> & -> & ->)
      by (split_and!; congruence).
    exists w2, (r.1 + n), (r.2 ++ errs). split; [done|].
    by rewrite Nat.add_assoc, app_assoc.
Qed.

(** X8: the multi-directory reader is the single-directory reader run on
    each configuration in turn, the counts added and the errors
    concatenated.  It always returns; on one configuration it returns what
    [import_from_sftp] returns; on a list put together from two it returns
    the sum and the concatenation of what it returns on the parts, the
    second run on the store and files the first left.  The per-directory
    error of its own handler never arises, [import_from_sftp] letting no
    exception out. *)
Theorem sftp_multi_is_sequential_sum :
  ∀ vendor_id (mapping : option field_mapping),
    (∀ config (w : world S),
       import_from_sftp_multi repr_item read_csv read_excel read_json read_xml
         ftp_nlst open_wb ftp_retrbinary [config] vendor_id mapping w
       = import_from_sftp repr_item read_csv read_excel read_json read_xml
           ftp_nlst open_wb ftp_retrbinary config vendor_id mapping w)
    ∧ (∀ configs1 configs2 (w : world S),
         ∃ w1 n1 errs1 w2 n2 errs2,
           import_from_sftp_multi repr_item read_csv read_excel read_json read_xml
             ftp_nlst open_wb ftp_retrbinary configs1 vendor_id mapping w
           = (w1, Ok (n1, errs1))
           ∧ import_from_sftp_multi repr_item read_csv read_excel read_json read_xml
               ftp_nlst open_wb ftp_retrbinary configs2 vendor_id mapping w1
             = (w2, Ok (n2, errs2))
           ∧ import_from_sftp_multi repr_item read_csv read_excel read_json read_xml
               ftp_nlst open_wb ftp_retrbinary (configs1 ++ configs2)
               vendor_id mapping w
             = (w2, Ok (n1 + n2, errs1 ++ errs2))).
Proof.
  intros vendor_id mapping. split.
  - intros config w. unfold import_from_sftp_multi. cbn [sftp_multi_loop].
    unfold bind.
    destruct (sftp_multi_step_spec config vendor_id mapping 0 [] w)
      as (w' & [n errs] & Hr & ->).
    by rewrite Hr.
  - intros configs1. unfold import_from_sftp_multi.
    induction configs1 as [|config rest IH]; intros configs2 w.
    + destruct (sftp_multi_loop_acc configs2 vendor_id mapping 0 [] w)
        as (w2 & n2 & errs2 & Hrun & _).
      exists w, 0, [], w2, n2, errs2. by split_and!.
    + rewrite <- app_comm_cons. cbn [sftp_multi_loop]. unfold bind.
      destruct (sftp_multi_step_spec config vendor_id mapping 0 [] w)
        as (w' & r & Hr & ->).
      cbn [fst snd].
      destruct (IH configs2 w') as (w1 & n1 & e1 & w2 & n2 & e2 & H1 & H2 & H12).
      destruct (sftp_multi_loop_acc rest vendor_id mapping (0 + r.1) ([] ++ r.2) w')
        as (w1' & n1' & e1' & H1' & ->).
      destruct (sftp_multi_loop_acc (rest ++ configs2) vendor_id mapping
                  (0 + r.1) ([] ++ r.2) w')
        as (w2' & n12 & e12 & H12' & ->).
      assert (w1' = w1 ∧ n1' = n1 ∧ e1' = e1) as (-> & -> & ->)
        by (split_and!; congruence).
      assert (w2' = w2 ∧ n12 = n1 + n2 ∧ e12 = e1 ++ e2) as (-> & -> & ->)
        by (split_and!; congruence).
      exists w1, (0 + r.1 + n1), (([] ++ r.2) ++ e1), w2, n2, e2.
      split_and!; [done|done|]. simpl. by rewrite Nat.add_assoc, app_assoc.
Qed.

Lemma sftp_import_files_clean files vendor_id (mapping : option field_mapping)
    total_imported all_errors (w : world S) :
  Forall (λ file, open_wb ("temp_" +:+ file) = Ok tt
                  ∧ ftp_retrbinary ("RETR " +:+ file) = Ok tt) files →
  ∃ st' r,
    sftp_import_files repr_item read_csv read_excel read_json read_xml
      open_wb ftp_retrbinary files vendor_id mapping total_imported all_errors w
    = (World st' (w_files w ∖ list_to_set ((λ file, "temp_" +:+ file) <$> files)),
       Ok r).
Proof.
  intros Hfiles. revert total_imported all_errors w.
  induction Hfiles as [|file rest [Hopen Hretr] _ IH];
    intros total_imported all_errors w.
  - exists (w_store w), (total_imported, all_errors). simpl. unfold ret.
    destruct w as [st fs]. simpl. do 2 f_equal.
    apply set_eq. intros f. rewrite elem_of_difference, elem_of_empty. tauto.
  - cbn [sftp_import_files]. unfold bind.
    destruct (sftp_import_one_cleans_up repr_item read_csv read_excel read_json
                read_xml ftp_nlst open_wb ftp_retrbinary file vendor_id mapping w
                Hopen Hretr)
      as (st1 & r1 & ->).
    destruct (IH (total_imported + r1.1) (all_errors ++ r1.2)
                (World st1 (w_files w ∖ {["temp_" +:+ file]}))) as (st' & r & ->).
    exists st', r. do 2 f_equal. simpl.
    apply set_eq. intros f.
    rewrite !elem_of_difference, elem_of_union, elem_of_singleton. tauto.
Qed.

(** X9: when every transfer succeeds the temporary files are gone.  If
    the listing has a matching file, and for each matching file the local
    file can be opened and the transfer completes, the reader returns the
    totals of the file imports and the working directory afterwards is
    the one before without the [temp_] files: none of them is left, a file
    that was there under such a name is gone too, and no other file is
    touched. *)
Theorem sftp_success_removes_temp_files :
  ∀ sftp_config vendor_id (mapping : option field_mapping) (w : world S) names files,
    ftp_nlst (default "" (sftp_host sftp_config)) (default 22%Z (sftp_port sftp_config))
             (default "" (sftp_username sftp_config))
             (default "" (sftp_password sftp_config))
             (default "/" (sftp_directory sftp_config)) = Ok names →
    filter (λ f, _matches_pattern f (default "*" (sftp_file_pattern sftp_config))
                 = true) names = files →
    files ≠ [] →
    Forall (λ file, open_wb ("temp_" +:+ file) = Ok tt
                    ∧ ftp_retrbinary ("RETR " +:+ file) = Ok tt) files →
    ∃ st' r,
      import_from_sftp repr_item read_csv read_excel read_json read_xml
        ftp_nlst open_wb ftp_retrbinary sftp_config vendor_id mapping w
      = (World st'
               (w_files w ∖ list_to_set ((λ file, "temp_" +:+ file) <$> files)),
         Ok r).
Proof.
  intros sftp_config vendor_id mapping w names files Hlist Hmatch Hne Hfiles.
  destruct (sftp_import_files_clean files vendor_id mapping 0 [] w Hfiles)
    as (st' & r & Hrun).
  exists st', r. unfold import_from_sftp. apply try_except_ok.
  unfold import_from_sftp_body, bind, lift. rewrite Hlist, Hmatch.
  by rewrite decide_False.
Qed.

End SftpRunFacts.

(** ** EDI reader: what the loop builds *)

Section EdiLoopFacts.
Context (py_float : string → option spec_float).

Lemma space_not_star c : is_space c = true → Ascii.eqb c "*" = false.
Proof.
  intros Hc. destruct (Ascii.eqb c "*") eqn:Heq; [|done].
  apply Ascii.eqb_eq in Heq as ->. by vm_compute in Hc.
Qed.

(** A segment that starts with white space is passed over: it is blank, or
    its identifier starts with the white space and is none of the three. *)
Lemma edi_segment_leading_space st segment :
  leading_space segment = true → edi_segment py_float st segment = st.
Proof.
  destruct segment as [|c rest]; [done|]. simpl. intros Hc.
  unfold edi_segment. case_decide as Hblank; [done|].
  cbn [split]. rewrite (space_not_star c Hc).
  destruct (split "*" rest) as [|first others] eqn:Hs;
    [by destruct (split_nonempty "*" rest)|].
  simpl.
  repeat case_decide; try done;
    match goal with
    | Heq : String c _ = _ |- _ => injection Heq as -> _; by vm_compute in Hc
    end.
Qed.

Lemma edi_fold_skip_leading_space segments st :
  fold_left (edi_segment py_float) segments st
  = fold_left (edi_segment py_float)
      (filter (λ s, leading_space s = false) segments) st.
Proof.
  revert st. induction segments as [|segment segments IH]; intros st; [done|].
  destruct (leading_space segment) eqn:Hs.
  - rewrite filter_cons_False by (by rewrite Hs). simpl.
    rewrite edi_segment_leading_space by done. apply IH.
  - rewrite filter_cons_True by done. simpl. apply IH.
Qed.

Lemma Forall_filter_keep {A : Type} (P Q : A → Prop) `{∀ x, Decision (Q x)}
    (l : list A) :
  Forall P l → Forall P (filter Q l).
Proof.
  induction 1 as [|x l Hx _ IH]; [done|].
  destruct (decide (Q x)).
  - rewrite filter_cons_True by done. by apply Forall_cons_2.
  - by rewrite filter_cons_False.
Qed.

(** The text assembled from segments is read as those segments. *)
Lemma edi_products_join segments :
  Forall (λ s, contains_char "~" s = false) segments →
  edi_products py_float (join "~" segments)
  = flush_product (fold_left (edi_segment py_float) segments (EdiState [] ∅)).
Proof.
  intros Hall. unfold edi_products.
  destruct segments as [|s l]; [done|].
  by rewrite split_join.
Qed.

Lemma edi_fields_empty : edi_fields py_float ∅.
Proof. intros k v Hk. by rewrite lookup_empty in Hk. Qed.

Lemma edi_fields_insert r k v :
  edi_fields py_float r →
  ((k = "sku" ∧ ∃ s, v = VStr s)
   ∨ (k = "name" ∧ ∃ s, v = VStr s)
   ∨ (k = "price" ∧ ∃ text f, py_float text = Some f ∧ v = VFloat f)) →
  edi_fields py_float (<[k := v]> r).
Proof.
  intros Hr Hkv k' v' Hk'.
  destruct (decide (k' = k)) as [->|Hne].
  - rewrite lookup_insert_eq in Hk'. by injection Hk' as <-.
  - rewrite lookup_insert_ne in Hk' by done. by apply Hr.
Qed.

Lemma flush_product_records st :
  Forall (edi_record py_float) (products_data st) →
  edi_fields py_float (current_product st) →
  Forall (edi_record py_float) (flush_product st).
Proof.
  intros Hdone Hcur. unfold flush_product. case_decide as Hempty; [done|].
  apply Forall_app. split; [done|]. by apply Forall_cons_2, Forall_nil_2.
Qed.

Lemma edi_segment_records st segment :
  Forall (edi_record py_float) (products_data st) →
  edi_fields py_float (current_product st) →
  Forall (edi_record py_float) (products_data (edi_segment py_float st segment))
  ∧ edi_fields py_float (current_product (edi_segment py_float st segment)).
Proof.
  intros Hdone Hcur. unfold edi_segment.
  repeat case_decide; try done.
  - simpl. split; [by apply flush_product_records|].
    destruct (split "*" segment !! 3%nat) as [sku|]; [|apply edi_fields_empty].
    rewrite <- insert_empty. apply edi_fields_insert; [apply edi_fields_empty|].
    left. split; [done|by eexists].
  - destruct (split "*" segment !! 5%nat) as [name|]; [|done].
    simpl. split; [done|]. apply edi_fields_insert; [done|].
    right; left. split; [done|by eexists].
  - destruct (split "*" segment !! 3%nat) as [text|]; [|done].
    destruct (py_float text) as [price|] eqn:Hprice; [|done].
    simpl. split; [done|]. apply edi_fields_insert; [done|].
    right; right. split; [done|]. by exists text, price.
Qed.

Lemma edi_fold_records segments st :
  Forall (edi_record py_float) (products_data st) →
  edi_fields py_float (current_product st) →
  Forall (edi_record py_float)
         (products_data (fold_left (edi_segment py_float) segments st))
  ∧ edi_fields py_float
      (current_product (fold_left (edi_segment py_float) segments st)).
Proof.
  revert st. induction segments as [|segment segments IH]; intros st Hdone Hcur;
    [done|].
  simpl. destruct (edi_segment_records st segment Hdone Hcur) as [Hdone' Hcur'].
  by apply IH.
Qed.

Lemma flush_product_length st :
  length (flush_product st) ≤ Datatypes.S (length (products_data st)).
Proof.
  unfold flush_product. case_decide; [lia|]. rewrite length_app. simpl. lia.
Qed.

Lemma edi_segment_length st segment :
  length (products_data (edi_segment py_float st segment))
  ≤ length (products_data st) + (if is_lin segment then 1 else 0).
Proof.
  unfold edi_segment, is_lin.
  case_decide as Hblank; [lia|].
  case_decide as Hlin.
  - rewrite bool_decide_eq_true_2 by done. simpl.
    pose proof (flush_product_length st). lia.
  - rewrite bool_decide_eq_false_2 by done.
    repeat case_decide; repeat case_match; simpl; lia.
Qed.

Lemma edi_fold_length segments st :
  length (products_data (fold_left (edi_segment py_float) segments st))
  ≤ length (products_data st) + length (filter (λ s, is_lin s = true) segments).
Proof.
  revert st. induction segments as [|segment segments IH]; intros st.
  - simpl. lia.
  - simpl. etrans; [apply IH|].
    pose proof (edi_segment_length st segment) as Hstep.
    destruct (is_lin segment) eqn:Hlin.
    + rewrite filter_cons_True by done. simpl. lia.
    + rewrite filter_cons_False by (by rewrite Hlin). lia.
Qed.

End EdiLoopFacts.

(** X10: every record the EDI reader hands to the pipeline is well formed:
    it holds at least one field, and each field is [sku] or [name] with a
    string, or [price] with a number that [float] returned for some
    text.  No other key and no empty record is produced, whatever the
    text. *)
Theorem edi_products_well_formed :
  ∀ (py_float : string → option spec_float) edi_data,
    Forall (edi_record py_float) (edi_products py_float edi_data).
Proof.
  intros py_float edi_data. unfold edi_products.
  destruct (edi_fold_records py_float (split "~" edi_data) (EdiState [] ∅))
    as [Hdone Hcur]; [done|apply edi_fields_empty|].
  by apply flush_product_records.
Qed.

(** X11: segment identifiers are compared untrimmed.  A segment that
    starts with white space, as every segment after a line break does, is
    passed over even when it reads LIN, PID or CTP after the white space:
    the records are those of the text without these segments. *)
Theorem edi_untrimmed_segments_skipped :
  ∀ (py_float : string → option spec_float) segments,
    Forall (λ s, contains_char "~" s = false) segments →
    edi_products py_float (join "~" segments)
    = edi_products py_float
        (join "~" (filter (λ s, leading_space s = false) segments)).
Proof.
  intros py_float segments Hall.
  rewrite !edi_products_join; [|by apply Forall_filter_keep|done].
  by rewrite edi_fold_skip_leading_space.
Qed.

(** X12: the reader opens a product only at a LIN segment or at the start
    of the text: the number of records is at most one more than the
    number of segments whose first element is LIN. *)
Theorem edi_products_bounded_by_lin :
  ∀ (py_float : string → option spec_float) edi_data,
    length (edi_products py_float edi_data)
    ≤ Datatypes.S (length (filter (λ s, is_lin s = true) (split "~" edi_data))).
Proof.
  intros py_float edi_data. unfold edi_products.
  etrans; [apply flush_product_length|].
  pose proof (edi_fold_length py_float (split "~" edi_data) (EdiState [] ∅)) as Hlen.
  simpl in Hlen. lia.
Qed.

(** ** Bulk path: the table under [INSERT OR REPLACE] *)

Section BulkTableFacts.
Context (str_value : value → string).
Context (sqlite_text : value → string) (sqlite_numeric : affinity → value → value).
Implicit Types (table : gmap nat vendor_product_row) (row : vendor_product_row).

Lemma same_natural_key_sym row1 row2 :
  same_natural_key row1 row2 → same_natural_key row2 row1.
Proof. intros (Hv & Hs & Hn). split_and!; [done|done|]. by rewrite <- Hs. Qed.

Lemma fresh_table_id table : table !! fresh (dom table) = None.
Proof. apply not_elem_of_dom, is_fresh. Qed.

(** A TEXT column holds text or NULL, whatever was bound. *)
Lemma stored_text v : text_or_null (stored sqlite_text sqlite_numeric AffText v).
Proof. by destruct v as [|b|n|[]|s]. Qed.

(** A row of the table after the statement is the new row, under the new
    identity, or a row that was there and does not collide with it. *)
Lemma insert_or_replace_lookup table row id r :
  insert_or_replace sqlite_text sqlite_numeric table row !! id = Some r
  ↔ (id = fresh (dom table) ∧ r = stored_row sqlite_text sqlite_numeric row)
    ∨ (table !! id = Some r
       ∧ ¬ same_natural_key r (stored_row sqlite_text sqlite_numeric row)).
Proof.
  unfold insert_or_replace.
  destruct (decide (id = fresh (dom table))) as [->|Hne].
  - rewrite lookup_insert_eq. split.
    + intros [= <-]. by left.
    + intros [[_ ->]|[Hold _]]; [done|]. by rewrite fresh_table_id in Hold.
  - rewrite lookup_insert_ne by done. rewrite map_lookup_filter_Some. simpl.
    split; [by right|]. by intros [[? _]|?].
Qed.

Lemma insert_or_replace_size table row :
  size (insert_or_replace sqlite_text sqlite_numeric table row)
  = Datatypes.S
      (size (filter (λ kv : nat * vendor_product_row,
                       ¬ same_natural_key kv.2
                           (stored_row sqlite_text sqlite_numeric row)) table)).
Proof.
  unfold insert_or_replace. apply map_size_insert_None.
  apply map_lookup_filter_None. left. apply fresh_table_id.
Qed.

Lemma insert_or_replace_grows table row :
  size (insert_or_replace sqlite_text sqlite_numeric table row)
  ≤ Datatypes.S (size table).
Proof. rewrite insert_or_replace_size. apply le_n_S, map_size_filter. Qed.

Lemma insert_or_replace_unique table row :
  table_key_unique table →
  table_key_unique (insert_or_replace sqlite_text sqlite_numeric table row).
Proof.
  intros Huniq id1 id2 row1 row2 H1 H2 Hkey.
  apply insert_or_replace_lookup in H1 as [[-> ->]|[H1 Hn1]];
    apply insert_or_replace_lookup in H2 as [[-> ->]|[H2 Hn2]].
  - done.
  - by apply same_natural_key_sym in Hkey.
  - done.
  - by apply (Huniq id1 id2 row1 row2).
Qed.

Lemma insert_or_replace_text table row :
  table_skus_text table →
  table_skus_text (insert_or_replace sqlite_text sqlite_numeric table row).
Proof.
  intros Htable id r Hr.
  apply insert_or_replace_lookup in Hr as [[-> ->]|[Hr _]].
  - apply stored_text.
  - by apply (Htable id r).
Qed.

Lemma insert_or_replace_other_vendor table row id r :
  table !! id = Some r → vp_vendor_id r ≠ vp_vendor_id row →
  insert_or_replace sqlite_text sqlite_numeric table row !! id = Some r.
Proof.
  intros Hr Hv. apply insert_or_replace_lookup. right. split; [done|].
  by intros [? _].
Qed.

(** Under the constraint the colliding rows are one row. *)
Lemma insert_or_replace_collision table row id old :
  table_key_unique table → table !! id = Some old →
  same_natural_key old (stored_row sqlite_text sqlite_numeric row) →
  insert_or_replace sqlite_text sqlite_numeric table row
  = <[fresh (dom table) := stored_row sqlite_text sqlite_numeric row]>
      (delete id table).
Proof.
  intros Huniq Hold Hkey. unfold insert_or_replace. f_equal.
  apply map_eq. intros i. destruct (decide (i = id)) as [->|Hne].
  - rewrite lookup_delete_eq. apply map_lookup_filter_None. right.
    intros x Hx. simpl. rewrite Hold in Hx. injection Hx as <-. by intros Hn.
  - rewrite lookup_delete_ne by done.
    destruct (table !! i) as [r|] eqn:Hr.
    + apply map_lookup_filter_Some. split; [done|]. simpl. intros Hkey'.
      apply Hne. apply (Huniq i id r old Hr Hold).
      destruct Hkey as (Hv & Hs & Hn), Hkey' as (Hv' & Hs' & Hn').
      split_and!; [congruence|congruence|done].
    + apply map_lookup_filter_None. by left.
Qed.

Lemma bulk_rows_invariant vendor_id (products_data : list record) table :
  table_key_unique table → table_skus_text table →
  let table' := fold_left (insert_or_replace sqlite_text sqlite_numeric)
                  (map (bulk_values str_value vendor_id) products_data) table in
  table_key_unique table' ∧ table_skus_text table'
  ∧ size table' ≤ size table + length products_data
  ∧ (∀ id row, table !! id = Some row → vp_vendor_id row ≠ vendor_id →
               table' !! id = Some row).
Proof.
  revert table.
  induction products_data as [|product rest IH]; intros table Huniq Htext.
  - simpl. split_and!; [done|done|lia|done].
  - cbn [map fold_left].
    destruct (IH (insert_or_replace sqlite_text sqlite_numeric table
                    (bulk_values str_value vendor_id product)))
      as (Hu & Ht & Hsize & Hframe).
    + by apply insert_or_replace_unique.
    + by apply insert_or_replace_text.
    + split_and!; [done|done| |].
      * pose proof (insert_or_replace_grows table
                      (bulk_values str_value vendor_id product)).
        simpl. lia.
      * intros id row Hrow Hv. apply Hframe; [|done].
        by apply insert_or_replace_other_vendor.
Qed.

End BulkTableFacts.

(** X13: the bulk load keeps the table in order.  With a positive batch
    size, on a table that satisfies UNIQUE(vendor_id, vendor_sku) and
    holds text or NULL in its SKU column: when every value to bind is
    within the range of a signed 64-bit integer the call returns the
    number of products handed in, and the table afterwards still
    satisfies the constraint, still holds text or NULL in its SKU column,
    has grown by at most that number of rows, and holds every row of
    every other vendor as it was; when a value is outside the range the
    call raises and the table is as it was. *)
Theorem bulk_insert_keeps_table_invariant :
  ∀ (str_value sqlite_text : value → string)
    (sqlite_numeric : affinity → value → value)
    vendor_id products_data batch_size table,
    (0 < batch_size)%Z →
    table_key_unique table → table_skus_text table →
    (Forall (λ p, row_bindable (bulk_values str_value vendor_id p) = true)
            products_data →
     ∃ table',
       bulk_insert str_value sqlite_text sqlite_numeric vendor_id products_data
         batch_size table
       = (table', Ok (length products_data))
       ∧ table_key_unique table' ∧ table_skus_text table'
       ∧ size table' ≤ size table + length products_data
       ∧ (∀ id row, table !! id = Some row → vp_vendor_id row ≠ vendor_id →
                    table' !! id = Some row))
    ∧ (Exists (λ p, row_bindable (bulk_values str_value vendor_id p) = false)
              products_data →
       bulk_insert str_value sqlite_text sqlite_numeric vendor_id products_data
         batch_size table
       = (table, Raise overflow_error)).
Proof.
  intros str_value sqlite_text sqlite_numeric vendor_id products_data batch_size
    table Hsize Huniq Htext.
  split.
  - intros Hall. eexists. split; [by apply bulk_insert_bindable|].
    by apply bulk_rows_invariant.
  - by apply bulk_insert_overflow.
Qed.

(** X14: loading a product the vendor already offers replaces the row.
    When the values of the product can be bound and its SKU is the text
    a row of the vendor holds, the row is deleted and the tuple of the
    product, as the database stores it, is written under a newly
    generated identity, with no master product: the identity the row had
    and its link to a master product are lost, every other row stays,
    and the number of rows is unchanged. *)
Theorem bulk_insert_replaces_row :
  ∀ (str_value sqlite_text : value → string)
    (sqlite_numeric : affinity → value → value)
    vendor_id product batch_size table id old sku,
    (0 < batch_size)%Z →
    table_key_unique table → table_skus_text table →
    table !! id = Some old →
    vp_vendor_id old = vendor_id → vp_vendor_sku old = VStr sku →
    dict_get product "sku" (VStr "") = VStr sku →
    row_bindable (bulk_values str_value vendor_id product) = true →
    ∃ table' id',
      bulk_insert str_value sqlite_text sqlite_numeric vendor_id [product]
        batch_size table
      = (table', Ok 1%nat)
      ∧ table !! id' = None
      ∧ table'
        = <[id' := stored_row sqlite_text sqlite_numeric
                     (bulk_values str_value vendor_id product)]> (delete id table)
      ∧ vp_master_product_id
          (stored_row sqlite_text sqlite_numeric
             (bulk_values str_value vendor_id product)) = VNone
      ∧ size table' = size table.
Proof.
  intros str_value sqlite_text sqlite_numeric vendor_id product batch_size table
    id old sku Hsize Huniq _ Hold Hv Hsku Hp Hbind.
  set (row := bulk_values str_value vendor_id product).
  exists (insert_or_replace sqlite_text sqlite_numeric table row), (fresh (dom table)).
  assert (same_natural_key old (stored_row sqlite_text sqlite_numeric row)) as Hkey.
  { split_and!; simpl; [done|by rewrite Hsku, Hp|by rewrite Hsku]. }
  split_and!.
  - rewrite bulk_insert_bindable; [done|done|].
    by apply Forall_cons_2, Forall_nil_2.
  - apply fresh_table_id.
  - by eapply insert_or_replace_collision.
  - done.
  - rewrite (insert_or_replace_collision sqlite_text sqlite_numeric table _ id old)
      by done.
    rewrite map_size_insert_None
      by (rewrite lookup_delete_ne; [apply fresh_table_id|];
          intros Heq; pose proof (fresh_table_id table) as Hf;
          rewrite <- Heq in Hf; congruence).
    rewrite map_size_delete_Some by by eexists.
    assert (size table ≠ 0); [|lia].
    intros Hzero%map_size_empty_inv. by rewrite Hzero, lookup_empty in Hold.
Qed.

(** X15: the number returned counts the products handed in, not the rows
    written.  Two products of one call whose values can be bound and
    whose SKUs are stored as the same text are counted as two, yet the
    second replaces the first: afterwards one row holds the SKU, it
    carries the tuple of the second product as the database stores it,
    and the table has grown by at most one row.  Two products without
    the key [sku] are such a pair: both get the SKU ['']. *)
Theorem bulk_insert_same_sku_twice :
  ∀ (str_value sqlite_text : value → string)
    (sqlite_numeric : affinity → value → value)
    vendor_id p1 p2 batch_size table,
    (0 < batch_size)%Z →
    row_bindable (bulk_values str_value vendor_id p1) = true →
    row_bindable (bulk_values str_value vendor_id p2) = true →
    stored sqlite_text sqlite_numeric AffText (dict_get p1 "sku" (VStr ""))
    = stored sqlite_text sqlite_numeric AffText (dict_get p2 "sku" (VStr "")) →
    stored sqlite_text sqlite_numeric AffText (dict_get p2 "sku" (VStr "")) ≠ VNone →
    (p1 !! "sku" = None →
     stored sqlite_text sqlite_numeric AffText (dict_get p1 "sku" (VStr ""))
     = VStr "")
    ∧ ∃ table' id,
        bulk_insert str_value sqlite_text sqlite_numeric vendor_id [p1; p2]
          batch_size table
        = (table', Ok 2%nat)
        ∧ table' !! id
          = Some (stored_row sqlite_text sqlite_numeric
                    (bulk_values str_value vendor_id p2))
        ∧ (∀ id' r, table' !! id' = Some r →
                    same_natural_key r
                      (stored_row sqlite_text sqlite_numeric
                         (bulk_values str_value vendor_id p2)) →
                    id' = id)
        ∧ size table' ≤ size table + 1.
Proof.
  intros str_value sqlite_text sqlite_numeric vendor_id p1 p2 batch_size table
    Hsize Hb1 Hb2 Hsame Hsku.
  split; [by intros Hno; unfold dict_get; rewrite Hno|].
  set (row1 := bulk_values str_value vendor_id p1).
  set (row2 := bulk_values str_value vendor_id p2).
  set (table1 := insert_or_replace sqlite_text sqlite_numeric table row1).
  exists (insert_or_replace sqlite_text sqlite_numeric table1 row2),
         (fresh (dom table1)).
  split_and!.
  - rewrite bulk_insert_bindable; [done|done|].
    by apply Forall_cons_2, Forall_cons_2, Forall_nil_2.
  - apply insert_or_replace_row.
  - intros id' r Hr Hkey.
    apply insert_or_replace_lookup in Hr as [[-> _]|[_ Hn]]; done.
  - rewrite insert_or_replace_size.
    assert (same_natural_key (stored_row sqlite_text sqlite_numeric row1)
                             (stored_row sqlite_text sqlite_numeric row2)) as Hkey.
    { split_and!; [done|exact Hsame|].
      intros Heq. apply Hsku. rewrite <- Hsame. exact Heq. }
    set (P := λ kv : nat * vendor_product_row,
                ¬ same_natural_key kv.2 (stored_row sqlite_text sqlite_numeric row2)).
    assert (filter P table1 = filter P (delete (fresh (dom table)) table1)) as ->.
    { rewrite map_filter_delete. symmetry. apply delete_id.
      apply map_lookup_filter_None. right. intros x Hx.
      unfold table1 in Hx. rewrite insert_or_replace_row in Hx.
      injection Hx as <-. unfold P. simpl. by intros Hn. }
    etrans; [apply le_n_S, map_size_filter|].
    rewrite map_size_delete_Some by (unfold table1; by rewrite insert_or_replace_row).
    unfold table1. rewrite insert_or_replace_size. simpl.
    rewrite Nat.add_1_r. apply le_n_S, map_size_filter.
Qed.

(** ** Upsert coordinator: more on batches *)

Section BatchFacts.
Context {S : Type} `{CatalogStore S} (repr_item : record → string).
Implicit Types (item : record) (mapping : field_mapping) (st : S).

Lemma process_items_no_sku vendor_id mapping data st n errs :
  mapping !! "sku" = None →
  process_items repr_item vendor_id mapping data st n errs
  = (st, (n, errs ++ (missing_field_error repr_item "sku" <$> data))).
Proof.
  intros Hsku. revert errs.
  induction data as [|item data IH]; intros errs.
  - simpl. by rewrite app_nil_r.
  - rewrite process_items_cons, process_item_missing_sku
      by by rewrite apply_mapping_lookup, Hsku.
    rewrite IH. by rewrite <- app_assoc.
Qed.

(** The accumulators only add up: a run that starts from a count and a
    list of errors is the run from zero and none, shifted. *)
Lemma process_items_shift vendor_id mapping data st n errs :
  process_items repr_item vendor_id mapping data st n errs
  = let r := process_items repr_item vendor_id mapping data st 0 [] in
    (r.1, (n + r.2.1, errs ++ r.2.2)).
Proof. by rewrite !process_items_outcomes. Qed.



End BatchFacts.

(** X16: a mapping supplied by the caller replaces the default mapping, it
    is not merged with it.  With a non-empty mapping that has no entry for
    [sku], every record of the batch is rejected as lacking [sku], whatever
    it holds: nothing is written, the count is zero, and there is one
    error per record, in batch order. *)
Theorem custom_mapping_without_sku_rejects_all :
  ∀ (S : Type) (HS : CatalogStore S) (repr_item : record → string)
    (data : list record) vendor_id (mapping : field_mapping) (st : S) v,
    mapping ≠ ∅ → mapping !! "sku" = None →
    VendorController_get_by_id st vendor_id = Ok (Some v) →
    _process_mapped_data repr_item data vendor_id (Some mapping) st
    = Ok (st, (0, missing_field_error repr_item "sku" <$> data)).
Proof.
  intros S HS repr_item data vendor_id mapping st v Hne Hsku Hv.
  unfold _process_mapped_data, effective_mapping. rewrite Hv.
  rewrite decide_False by done.
  by rewrite process_items_no_sku.
Qed.


(** X18: a batch can be cut in two.  When the vendor is found before and
    after the first part, importing the two parts one after the other
    gives the store, the sum of the counts and the concatenation of the
    errors that importing the whole batch gives. *)
Theorem process_mapped_data_split :
  ∀ (S : Type) (HS : CatalogStore S) (repr_item : record → string)
    (d1 d2 : list record) vendor_id (mapping : option field_mapping)
    (st st1 st2 : S) v v1 n1 errs1 n2 errs2,
    VendorController_get_by_id st vendor_id = Ok (Some v) →
    _process_mapped_data repr_item d1 vendor_id mapping st = Ok (st1, (n1, errs1)) →
    VendorController_get_by_id st1 vendor_id = Ok (Some v1) →
    _process_mapped_data repr_item d2 vendor_id mapping st1 = Ok (st2, (n2, errs2)) →
    _process_mapped_data repr_item (d1 ++ d2) vendor_id mapping st
    = Ok (st2, (n1 + n2, errs1 ++ errs2)).
Proof.
  intros S HS repr_item d1 d2 vendor_id mapping st st1 st2 v v1 n1 errs1 n2 errs2
    Hv H1 Hv1 H2.
  unfold _process_mapped_data in *. rewrite Hv in *. rewrite Hv1 in H2.
  injection H1 as H1. injection H2 as H2.
  rewrite process_items_app, H1, process_items_shift, H2. done.
Qed.

(** X19: under the default mapping [description] is the last alias of
    [name] as well as the first alias of [description].  A record that
    has a description and no [name], [product_name] or [title] gets the
    description as its name too, and so passes the test for a name. *)
Theorem default_mapping_description_names :
  ∀ (item : record) v,
    item !! "description" = Some v → truthy v = true →
    Forall (λ a, has_value item a = false) ["name"; "product_name"; "title"] →
    apply_mapping (effective_mapping None) item !! "name" = Some v
    ∧ apply_mapping (effective_mapping None) item !! "description" = Some v.
Proof.
  intros item v Hd Hv Hno. split.
  - by apply (apply_mapping_first_alias _ _ _ ["name"; "product_name"; "title"]
                "description" []).
  - by apply (apply_mapping_first_alias _ _ _ [] "description"
                ["long_description"; "details"]).
Qed.

(** ** Settings *)

Section SettingsFacts.
Implicit Types (config : gmap string json) (keys : list string).

(** On an empty section the navigation creates what it needs. *)
Lemma set_walk_fresh keys last_key value :
  ∃ t, set_walk keys last_key (JObj ∅) value = (t, None)
       ∧ json_path (keys ++ [last_key]) t = Some value.
Proof.
  induction keys as [|k rest IH].
  - eexists. split; [done|]. simpl. by rewrite lookup_insert_eq.
  - destruct IH as (t & Hrun & Hpath).
    cbn [set_walk json_contains]. rewrite lookup_empty.
    rewrite bool_decide_eq_false_2 by by intros [? ?].
    cbn [json_setitem json_getitem]. rewrite lookup_insert_eq, Hrun.
    eexists. split; [done|]. simpl. by rewrite lookup_insert_eq.
Qed.

Lemma set_walk_ok keys last_key current value current' :
  set_walk keys last_key current value = (current', None) →
  json_path (keys ++ [last_key]) current' = Some value.
Proof.
  revert current current'. induction keys as [|k rest IH]; intros current current'.
  - destruct current; simpl; try done.
    intros [= <-]. by rewrite lookup_insert_eq.
  - destruct current as [|b|n|f|s|items|m]; cbn [set_walk json_contains]; try done.
    + destruct (contains s k); simpl; done.
    + destruct (existsb (json_is_str k) items); simpl; done.
    + destruct (m !! k) as [child|] eqn:Hk.
      * rewrite bool_decide_eq_true_2 by by eexists.
        cbn [json_getitem]. rewrite Hk.
        destruct (set_walk rest last_key child value) as [child' failure] eqn:Hrun.
        simpl. intros [= <- ->]. rewrite lookup_insert_eq. by eapply IH.
      * rewrite bool_decide_eq_false_2 by by intros [? ?].
        cbn [json_setitem json_getitem]. rewrite lookup_insert_eq.
        destruct (set_walk rest last_key (JObj ∅) value) as [child' failure] eqn:Hrun.
        simpl. intros [= <- ->]. rewrite lookup_insert_eq. by eapply IH.
Qed.

Lemma set_walk_failure keys last_key current value current' e :
  set_walk keys last_key current value = (current', Some e) → current' = current.
Proof.
  revert current current'. induction keys as [|k rest IH]; intros current current'.
  - destruct current; simpl; by intros [= <-].
  - destruct current as [|b|n|f|s|items|m]; cbn [set_walk json_contains];
      try by intros [= <-].
    + destruct (contains s k); simpl; by intros [= <-].
    + destruct (existsb (json_is_str k) items); simpl; by intros [= <-].
    + destruct (m !! k) as [child|] eqn:Hk.
      * rewrite bool_decide_eq_true_2 by by eexists.
        cbn [json_getitem]. rewrite Hk.
        destruct (set_walk rest last_key child value) as [child' failure] eqn:Hrun.
        simpl. intros [= <- ->]. apply IH in Hrun as ->. by rewrite insert_id.
      * rewrite bool_decide_eq_false_2 by by intros [? ?].
        cbn [json_setitem json_getitem]. rewrite lookup_insert_eq.
        destruct (set_walk_fresh rest last_key value) as (t & Hrun & _).
        rewrite Hrun. simpl. done.
Qed.

(** The navigation starts in a dictionary and leaves a dictionary, which
    differs from the first under the first key at most. *)
Lemma set_walk_frame keys last_key config value current' failure :
  set_walk keys last_key (JObj config) value = (current', failure) →
  ∃ config', current' = JObj config'
             ∧ ∀ k, head (keys ++ [last_key]) ≠ Some k → config' !! k = config !! k.
Proof.
  destruct keys as [|k0 rest].
  - simpl. intros [= <- _]. eexists. split; [done|].
    intros k Hk. rewrite lookup_insert_ne; [done|]. by intros ->.
  - cbn [set_walk json_contains].
    destruct (config !! k0) as [child|] eqn:Hk0.
    + rewrite bool_decide_eq_true_2 by by eexists.
      cbn [json_getitem]. rewrite Hk0.
      destruct (set_walk rest last_key child value) as [child' failure'].
      simpl. intros [= <- _]. eexists. split; [done|].
      intros k Hk. rewrite lookup_insert_ne; [done|]. by intros ->.
    + rewrite bool_decide_eq_false_2 by by intros [? ?].
      cbn [json_setitem json_getitem]. rewrite lookup_insert_eq.
      destruct (set_walk rest last_key (JObj ∅) value) as [child' failure'].
      simpl. intros [= <- _]. eexists. split; [done|].
      intros k Hk. rewrite !lookup_insert_ne; [done|by intros ->..].
Qed.

Lemma split_removelast_last key :
  removelast (split "." key) ++ [List.last (split "." key) ""] = split "." key.
Proof. symmetry. apply app_removelast_last, split_nonempty. Qed.

Lemma set_setting_walk config key value :
  set_walk (removelast (split "." key)) (List.last (split "." key) "") (JObj config) value
  = (JObj (set_setting config key value).1, (set_setting config key value).2).
Proof.
  unfold set_setting.
  destruct (set_walk _ _ _ _) as [current' failure] eqn:Hrun.
  by apply set_walk_frame in Hrun as (config' & -> & _).
Qed.

Lemma load_config_path user k0 rest :
  json_path (k0 :: rest) (JObj (load_config (Some (Ok user))))
  = match user !! k0 with
    | Some _ => json_path (k0 :: rest) (JObj user)
    | None => json_path (k0 :: rest) (JObj DEFAULT_CONFIG)
    end.
Proof.
  simpl. rewrite lookup_union.
  destruct (user !! k0) as [x|] eqn:Hx.
  - by destruct (DEFAULT_CONFIG !! k0).
  - by destruct (DEFAULT_CONFIG !! k0).
Qed.

End SettingsFacts.

(** X20: a setting that was set is the setting that is read.  When
    [set_setting] returns, [get_setting] with the same key returns the
    value, whatever default is passed; the configuration differs from the
    one before under the first component of the key at most. *)
Theorem set_setting_then_get :
  ∀ config key value config' default,
    set_setting config key value = (config', None) →
    get_setting config' key default = value
    ∧ (∀ k, head (split "." key) ≠ Some k → config' !! k = config !! k).
Proof.
  intros config key value config' default Hset.
  pose proof (set_setting_walk config key value) as Hwalk.
  rewrite Hset in Hwalk. simpl in Hwalk. split.
  - apply set_walk_ok in Hwalk. rewrite split_removelast_last in Hwalk.
    unfold get_setting. by rewrite Hwalk.
  - apply set_walk_frame in Hwalk as (c & [= <-] & Hframe).
    by rewrite split_removelast_last in Hframe.
Qed.

(** X21: [set_setting] changes the configuration or raises, never both.
    When it raises, which it does when the way to the key leads into a
    value that is not a dictionary, the configuration is as it was:
    sections made on the way would have been made in an empty dictionary,
    where nothing can fail.  When the first component of the key is not in
    the configuration, it does not raise. *)
Theorem set_setting_all_or_nothing :
  ∀ config key value,
    (∀ config' e, set_setting config key value = (config', Some e) → config' = config)
    ∧ (∀ k0, head (split "." key) = Some k0 → config !! k0 = None →
             ∃ config', set_setting config key value = (config', None)).
Proof.
  intros config key value. split.
  - intros config' e Hset.
    pose proof (set_setting_walk config key value) as Hwalk.
    rewrite Hset in Hwalk. simpl in Hwalk.
    by apply set_walk_failure in Hwalk as [= ->].
  - intros k0 Hhead Hk0.
    pose proof (set_setting_walk config key value) as Hwalk.
    pose proof (split_removelast_last key) as Hsplit.
    destruct (set_setting config key value) as [config' failure].
    exists config'. f_equal. simpl in Hwalk.
    destruct failure as [e|]; [|done]. exfalso.
    destruct (removelast (split "." key)) as [|k rest] eqn:Hkeys.
    + simpl in Hwalk. done.
    + rewrite <- Hsplit in Hhead. simpl in Hhead. injection Hhead as ->.
      cbn [set_walk json_contains] in Hwalk. rewrite Hk0 in Hwalk.
      rewrite bool_decide_eq_false_2 in Hwalk by by intros [? ?].
      cbn [json_setitem json_getitem] in Hwalk. rewrite lookup_insert_eq in Hwalk.
      destruct (set_walk_fresh rest (List.last (split "." key) "") value)
        as (t & Hrun & _).
      rewrite Hrun in Hwalk. simpl in Hwalk. done.
Qed.

(** X22: the configuration file overrides the defaults section by section,
    not key by key.  A key whose first component is in the file is looked
    up in the file alone: what the defaults hold below that component is
    out of reach.  A key whose first component is not in the file is
    looked up in the defaults. *)
Theorem load_config_merges_top_level_only :
  ∀ (user : gmap string json) key default k0,
    head (split "." key) = Some k0 →
    (is_Some (user !! k0) →
     get_setting (load_config (Some (Ok user))) key default
     = get_setting user key default)
    ∧ (user !! k0 = None →
       get_setting (load_config (Some (Ok user))) key default
       = get_setting DEFAULT_CONFIG key default).
Proof.
  intros user key default k0 Hhead. unfold get_setting.
  destruct (split "." key) as [|k rest]; [done|]. injection Hhead as ->.
  rewrite load_config_path. split.
  - by intros [x ->].
  - by intros ->.
Qed.

(** * Further worked inputs, checked *)

Lemma pagination_collects_chain_witness :
  (∃ urls,
     Forall2 (λ url page, example_http url = Ok page) urls [example_page "B2" JNull]
     ∧ api_collect_items example_http "items" "next" 2 true
         (example_page "A1" (JStr "/page/2"))
       = Some (Ok (example_items "A1" ++ concat [example_items "B2"], urls)))
  ∧ api_collect_items example_http "items" "next" 2 false
      (example_page "A1" (JStr "/page/2"))
    = Some (Ok (example_items "A1", [])).
Proof.
  apply (pagination_collects_chain example_http "items" "next"
           (example_page "A1" (JStr "/page/2")) [example_page "B2" JNull]
           (example_items "A1") [example_items "B2"] 2).
  - by vm_compute.
  - split_and!; [by vm_compute| |by vm_compute].
    exists (JStr "/page/2"). split; by vm_compute.
  - repeat constructor.
  - simpl. lia.
Defined.

Lemma pagination_self_link_never_ends_witness :
  fetch_pages example_http_loop "items" "next" 5
    (example_page "A1" (JStr "/page/1")) [] []
  = None.
Proof.
  apply (pagination_self_link_never_ends example_http_loop "items" "next"
           (example_page "A1" (JStr "/page/1")) (JStr "/page/1") (example_items "A1"));
    by vm_compute.
Defined.

Lemma pagination_failure_discards_items_witness :
  api_collect_items example_http "items" "next" 2 true
    (example_page "A0" (JStr "/page/3"))
  = Some (Raise (Exn RequestException "404 Client Error: Not Found")).
Proof.
  apply (pagination_failure_discards_items example_http "items" "next"
           (example_page "A0" (JStr "/page/3")) [example_page "C3" (JStr "/page/4")]
           (example_items "A0") [example_items "C3"] (JStr "/page/4")).
  - by vm_compute.
  - split_and!; [by vm_compute| |done].
    exists (JStr "/page/3"). split; by vm_compute.
  - repeat constructor.
  - by vm_compute.
  - by vm_compute.
  - by vm_compute.
  - simpl. lia.
Defined.

Lemma sftp_success_removes_temp_files_witness :
  ∃ st' r,
    import_from_sftp example_repr no_file no_file no_file no_file
      example_nlst open_ok retr_ok example_sftp 1%Z None
      (World example_catalog {[ "temp_a.csv"; "notes.txt" ]})
    = (World st' (w_files (World example_catalog {[ "temp_a.csv"; "notes.txt" ]})
                  ∖ list_to_set ((λ file, "temp_" +:+ file) <$> ["a.csv"])),
       Ok r).
Proof.
  apply (sftp_success_removes_temp_files example_repr no_file no_file no_file no_file
           example_nlst open_ok retr_ok example_sftp 1%Z None
           (World example_catalog {[ "temp_a.csv"; "notes.txt" ]})
           ["a.csv"; "a.csv.bak"] ["a.csv"]).
  - done.
  - by vm_compute.
  - done.
  - by repeat constructor.
Defined.

Lemma edi_untrimmed_segments_skipped_witness :
  edi_products example_float (join "~" example_edi_lines)
  = edi_products example_float
      (join "~" (filter (λ s, leading_space s = false) example_edi_lines)).
Proof.
  apply (edi_untrimmed_segments_skipped example_float example_edi_lines).
  by repeat constructor.
Defined.

Lemma example_table_unique : table_key_unique example_table.
Proof.
  intros id1 id2 row1 row2 Hrow1 Hrow2 _. unfold example_table in *.
  apply lookup_singleton_Some in Hrow1 as [<- _].
  by apply lookup_singleton_Some in Hrow2 as [<- _].
Qed.

Lemma example_table_text : table_skus_text example_table.
Proof.
  intros id row Hrow. unfold example_table in Hrow.
  by apply lookup_singleton_Some in Hrow as [_ <-].
Qed.

Lemma bulk_insert_keeps_table_invariant_witness :
  ∃ table',
    bulk_insert example_str example_sqlite_text example_sqlite_numeric 1
      [example_product; {[ "sku" := VStr "B2" ]}] 1000 example_table
    = (table', Ok (length [example_product; {[ "sku" := VStr "B2" ]}]))
    ∧ table_key_unique table' ∧ table_skus_text table'
    ∧ size table'
      ≤ size example_table + length [example_product; {[ "sku" := VStr "B2" ]}]
    ∧ (∀ id row, example_table !! id = Some row → vp_vendor_id row ≠ 1%Z →
                 table' !! id = Some row).
Proof.
  apply (bulk_insert_keeps_table_invariant example_str example_sqlite_text
           example_sqlite_numeric 1
           [example_product; {[ "sku" := VStr "B2" ]}] 1000 example_table).
  - done.
  - exact example_table_unique.
  - exact example_table_text.
  - by repeat constructor.
Defined.

Lemma bulk_insert_replaces_row_witness :
  ∃ table' id',
    bulk_insert example_str example_sqlite_text example_sqlite_numeric 1
      [example_product] 1000 example_table
    = (table', Ok 1%nat)
    ∧ example_table !! id' = None
    ∧ table'
      = <[id' := stored_row example_sqlite_text example_sqlite_numeric
                   (bulk_values example_str 1 example_product)]>
          (delete 7%nat example_table)
    ∧ vp_master_product_id
        (stored_row example_sqlite_text example_sqlite_numeric
           (bulk_values example_str 1 example_product)) = VNone
    ∧ size table' = size example_table.
Proof.
  apply (bulk_insert_replaces_row example_str example_sqlite_text
           example_sqlite_numeric 1 example_product 1000 example_table
           7%nat example_stock_row "A1").
  - done.
  - exact example_table_unique.
  - exact example_table_text.
  - done.
  - done.
  - done.
  - by vm_compute.
  - by vm_compute.
Defined.

Lemma bulk_insert_same_sku_twice_witness :
  ((example_unkeyed "Widget") !! "sku" = None →
   stored example_sqlite_text example_sqlite_numeric AffText
     (dict_get (example_unkeyed "Widget") "sku" (VStr ""))
   = VStr "")
  ∧ ∃ table' id,
      bulk_insert example_str example_sqlite_text example_sqlite_numeric 1
        [example_unkeyed "Widget"; example_unkeyed "Gadget"] 1000 example_table
      = (table', Ok 2%nat)
      ∧ table' !! id
        = Some (stored_row example_sqlite_text example_sqlite_numeric
                  (bulk_values example_str 1 (example_unkeyed "Gadget")))
      ∧ (∀ id' r, table' !! id' = Some r →
                  same_natural_key r
                    (stored_row example_sqlite_text example_sqlite_numeric
                       (bulk_values example_str 1 (example_unkeyed "Gadget"))) →
                  id' = id)
      ∧ size table' ≤ size example_table + 1.
Proof.
  apply (bulk_insert_same_sku_twice example_str example_sqlite_text
           example_sqlite_numeric 1 (example_unkeyed "Widget")
           (example_unkeyed "Gadget") 1000 example_table).
  - done.
  - by vm_compute.
  - by vm_compute.
  - by vm_compute.
  - by vm_compute.
Defined.

Lemma custom_mapping_without_sku_rejects_all_witness :
  _process_mapped_data example_repr [example_item; example_item] 1
    (Some {[ "name" := ["title"] ]}) example_catalog
  = Ok (example_catalog,
        (0, missing_field_error example_repr "sku" <$> [example_item; example_item])).
Proof.
  apply (custom_mapping_without_sku_rejects_all catalog catalog_store example_repr
           [example_item; example_item] 1 {[ "name" := ["title"] ]} example_catalog
           example_vendor).
  - compute_done.
  - by vm_compute.
  - by vm_compute.
Defined.



Lemma process_mapped_data_split_witness :
  _process_mapped_data example_repr ([example_unkeyed "Widget"] ++ [example_item])
    1 None example_catalog
  = Ok ((process_item example_repr 1 default_mapping example_catalog example_item).1,
        (0 + 1, [missing_field_error example_repr "sku" (example_unkeyed "Widget")]
                ++ [])).
Proof.
  apply (process_mapped_data_split catalog catalog_store example_repr
           [example_unkeyed "Widget"] [example_item] 1 None
           example_catalog example_catalog
           (process_item example_repr 1 default_mapping example_catalog example_item).1
           example_vendor example_vendor).
  - by vm_compute.
  - by vm_compute.
  - by vm_compute.
  - by vm_compute.
Defined.

Lemma default_mapping_description_names_witness :
  apply_mapping (effective_mapping None)
    {[ "sku" := VStr "A1"; "description" := VStr "Blue widget" ]} !! "name"
  = Some (VStr "Blue widget")
  ∧ apply_mapping (effective_mapping None)
      {[ "sku" := VStr "A1"; "description" := VStr "Blue widget" ]} !! "description"
    = Some (VStr "Blue widget").
Proof.
  apply (default_mapping_description_names
           {[ "sku" := VStr "A1"; "description" := VStr "Blue widget" ]}
           (VStr "Blue widget")).
  - by vm_compute.
  - done.
  - by repeat constructor.
Defined.

Lemma set_setting_then_get_witness :
  get_setting (set_setting DEFAULT_CONFIG "database.host" (JStr "db1")).1
    "database.host" JNull
  = JStr "db1"
  ∧ (∀ k, head (split "." "database.host") ≠ Some k →
          (set_setting DEFAULT_CONFIG "database.host" (JStr "db1")).1 !! k
          = DEFAULT_CONFIG !! k).
Proof.
  apply (set_setting_then_get DEFAULT_CONFIG "database.host" (JStr "db1")
           (set_setting DEFAULT_CONFIG "database.host" (JStr "db1")).1 JNull).
  by vm_compute.
Defined.

Lemma load_config_merges_top_level_only_witness :
  (is_Some (example_user_config !! "database") →
   get_setting (load_config (Some (Ok example_user_config))) "database.host" JNull
   = get_setting example_user_config "database.host" JNull)
  ∧ (example_user_config !! "database" = None →
     get_setting (load_config (Some (Ok example_user_config))) "database.host" JNull
     = get_setting DEFAULT_CONFIG "database.host" JNull).
Proof.
  apply (load_config_merges_top_level_only example_user_config "database.host" JNull
           "database").
  by vm_compute.
Defined.
